(** * Sparkify data lake ETL ([etl.py]): a shallow embedding

    The program is a sequence of dataframe operations.  A dataframe is
    modelled by the list of its rows, a row by a record with one field per
    column, a nullable column by [option], and the destination storage by a
    finite map from paths to what was written there.  The operations of the
    dataframe engine the program calls ([read.json], [filter], [select],
    [dropDuplicates], [join], [monotonically_increasing_id],
    [write.parquet], the calendar functions) are modelled by their
    documented behaviour; the choices the program leaves to its execution
    environment are gathered in the record [Engine]. *)

From Stdlib Require Import ZArith Lia PrimFloat.
From stdpp Require Import gmap strings list fin_maps pretty.

Set Warnings "-clear-no-such-hyp".

Local Open Scope string_scope.
Local Open Scope list_scope.
Local Open Scope Z_scope.

(** ** Errors

    The exceptions a run can end with; [result] is the error monad the
    fallible steps live in. *)

Inductive error :=
| SparkException      (* a malformed record under the FAILFAST parse mode *)
| AnalysisException   (* a destination that exists under the error save mode *)
| TypeError           (* [None / 1000] in the timestamp UDF *)
| ValueError.         (* [datetime.fromtimestamp]: year out of range *)

Inductive result (A : Type) :=
| Ok (a : A)
| Err (e : error).
Arguments Ok {A} a.
Arguments Err {A} e.

#[global] Instance result_ret : MRet result := λ A a, Ok a.
#[global] Instance result_bind : MBind result := λ A B f m,
  match m with
  | Ok a => f a
  | Err e => Err e
  end.

(** ** Values and schemas *)

(** Binary64 values are carried around, never computed with. *)
Definition double := float.

Inductive DataType := StringType | DoubleType | IntegerType | LongType.

Record StructField := Field {
  field_name : string;
  field_type : DataType;
  field_nullable : bool
}.

Abbreviation StructType := (list StructField).

Inductive value :=
| VString (s : string)
| VDouble (d : double)
| VInt (z : Z)
| VLong (z : Z).

(** A cell is a value or SQL NULL. *)
Abbreviation cell := (option value).

Definition as_string (c : cell) : option string :=
  match c with Some (VString s) => Some s | _ => None end.
Definition as_double (c : cell) : option double :=
  match c with Some (VDouble d) => Some d | _ => None end.
Definition as_int (c : cell) : option Z :=
  match c with Some (VInt z) => Some z | _ => None end.
Definition as_long (c : cell) : option Z :=
  match c with Some (VLong z) => Some z | _ => None end.

(** ** The execution environment

    What the program takes from where it runs: the local time zone (the
    offset from UTC, in seconds, in force at a given UTC second), how the
    engine cuts a dataframe into partitions (here: consecutive runs of
    [rows_per_partition] rows), and the engine's conversions between
    numbers and text. *)

Record Engine := {
  utcoffset : Z → Z;
  rows_per_partition : Z;
  double_of_Z : Z → double;
  text_of_double : double → string
}.

(** ** Raw records: the two schemas *)

Module Song.
Record t := mk {
    artist_id : option string;
    artist_latitude : option string;
    artist_longitude : option string;
    artist_location : option string;
    artist_name : option string;
    song_id : option string;
    title : option string;
    duration : option double;
    year : option Z
  }.
End Song.

Module Log.
Record t := mk {
    artist : option string;
    auth : option string;
    firstName : option string;
    gender : option string;
    itemInSession : option Z;
    lastName : option string;
    length : option double;
    level : option string;
    location : option string;
    method : option string;
    page : option string;
    registration : option double;
    sessionId : option Z;
    song : option string;
    status : option Z;
    ts : option Z;
    userAgent : option string;
    userId : option string
  }.
End Log.

Definition song_schema : StructType := [
  Field "artist_id" StringType false;
  Field "artist_latitude" StringType true;
  Field "artist_longitude" StringType true;
  Field "artist_location" StringType true;
  Field "artist_name" StringType false;
  Field "song_id" StringType false;
  Field "title" StringType false;
  Field "duration" DoubleType true;
  Field "year" IntegerType true
].

Definition log_schema : StructType := [
  Field "artist" StringType false;
  Field "auth" StringType true;
  Field "firstName" StringType true;
  Field "gender" StringType true;
  Field "itemInSession" LongType true;
  Field "lastName" StringType true;
  Field "length" DoubleType true;
  Field "level" StringType true;
  Field "location" StringType true;
  Field "method" StringType true;
  Field "page" StringType false;
  Field "registration" DoubleType true;
  Field "sessionId" LongType true;
  Field "song" StringType false;
  Field "status" LongType true;
  Field "ts" LongType false;
  Field "userAgent" StringType true;
  Field "userId" StringType false
].

(** ** [spark.read.json] with a schema

    A source record is a flat JSON object of scalar tokens.  The reader
    (Spark 2, the line the [hadoop-aws:2.7.5] package of the session
    belongs to) first makes every field of a user-given schema nullable,
    then converts the tokens of each record to the column types.  A field
    the record does not have is NULL.  A token that does not convert makes
    the record malformed, and the parse mode decides: PERMISSIVE, the
    default, keeps the record as a row of NULLs; DROPMALFORMED skips it;
    FAILFAST raises.  [etl.py] passes no mode. *)

Inductive json :=
| JNull
| JString (s : string)
| JInt (z : Z)
| JFloat (d : double)
| JBool (b : bool).

Abbreviation record := (gmap string json).

Inductive ParseMode := PERMISSIVE | DROPMALFORMED | FAILFAST.

Definition default_mode : ParseMode := PERMISSIVE.

Definition asNullable (schema : StructType) : StructType :=
  (λ f, Field (field_name f) (field_type f) true) <$> schema.

Definition json_text (eng : Engine) (j : json) : string :=
  match j with
  | JNull => "null"
  | JString s => s
  | JInt z => pretty z
  | JFloat d => text_of_double eng d
  | JBool b => if b then "true" else "false"
  end.

(** [convert] is [None] where the token does not convert. Any token
    converts to a string, its text; an empty string reads as NULL in a
    column that is not a string column; the three names of the special
    values convert to a double. *)
Definition convert (eng : Engine) (t : DataType) (j : json) : option cell :=
  match j, t with
  | JNull, _ => Some None
  | _, StringType => Some (Some (VString (json_text eng j)))
  | JString "", _ => Some None
  | JString "NaN", DoubleType => Some (Some (VDouble nan))
  | JString "Infinity", DoubleType => Some (Some (VDouble infinity))
  | JString "-Infinity", DoubleType => Some (Some (VDouble neg_infinity))
  | JInt z, LongType =>
      if bool_decide (- 2 ^ 63 ≤ z < 2 ^ 63) then Some (Some (VLong z)) else None
  | JInt z, IntegerType =>
      if bool_decide (- 2 ^ 31 ≤ z < 2 ^ 31) then Some (Some (VInt z)) else None
  | JInt z, DoubleType => Some (Some (VDouble (double_of_Z eng z)))
  | JFloat d, DoubleType => Some (Some (VDouble d))
  | _, _ => None
  end.

Abbreviation row := (list cell).

Definition convert_field (eng : Engine) (r : record) (f : StructField) : option cell :=
  match r !! field_name f with
  | None => Some None
  | Some j => convert eng (field_type f) j
  end.

Definition convert_record (eng : Engine) (schema : StructType) (r : record) : option row :=
  mapM (convert_field eng r) schema.

Definition null_row (schema : StructType) : row := (λ _, None) <$> schema.

Definition parse_record (eng : Engine) (mode : ParseMode) (schema : StructType)
    (r : record) : result (list row) :=
  match convert_record eng schema r with
  | Some cells => Ok [cells]
  | None =>
      match mode with
      | PERMISSIVE => Ok [null_row schema]
      | DROPMALFORMED => Ok []
      | FAILFAST => Err SparkException
      end
  end.

Fixpoint parse_records (eng : Engine) (mode : ParseMode) (schema : StructType)
    (rs : list record) : result (list row) :=
  match rs with
  | [] => Ok []
  | r :: rs' =>
      here ← parse_record eng mode schema r;
      rest ← parse_records eng mode schema rs';
      Ok (here ++ rest)
  end.

Definition read_json (eng : Engine) (mode : ParseMode) (schema : StructType)
    (rs : list record) : result (list row) :=
  parse_records eng mode (asNullable schema) rs.

(** The cell of a named column of a row. *)
Definition column (schema : StructType) (cells : row) (c : string) : cell :=
  match list_find (λ f, field_name f = c) schema with
  | Some (i, _) => default None (cells !! i)
  | None => None
  end.

Definition song_of_row (cells : row) : Song.t :=
  let get := column song_schema cells in
  {| Song.artist_id := as_string (get "artist_id");
     Song.artist_latitude := as_string (get "artist_latitude");
     Song.artist_longitude := as_string (get "artist_longitude");
     Song.artist_location := as_string (get "artist_location");
     Song.artist_name := as_string (get "artist_name");
     Song.song_id := as_string (get "song_id");
     Song.title := as_string (get "title");
     Song.duration := as_double (get "duration");
     Song.year := as_int (get "year") |}.

Definition log_of_row (cells : row) : Log.t :=
  let get := column log_schema cells in
  {| Log.artist := as_string (get "artist");
     Log.auth := as_string (get "auth");
     Log.firstName := as_string (get "firstName");
     Log.gender := as_string (get "gender");
     Log.itemInSession := as_long (get "itemInSession");
     Log.lastName := as_string (get "lastName");
     Log.length := as_double (get "length");
     Log.level := as_string (get "level");
     Log.location := as_string (get "location");
     Log.method := as_string (get "method");
     Log.page := as_string (get "page");
     Log.registration := as_double (get "registration");
     Log.sessionId := as_long (get "sessionId");
     Log.song := as_string (get "song");
     Log.status := as_long (get "status");
     Log.ts := as_long (get "ts");
     Log.userAgent := as_string (get "userAgent");
     Log.userId := as_string (get "userId") |}.

Definition create_song_df (eng : Engine) (song_files : list record) : result (list Song.t) :=
  cells ← read_json eng default_mode song_schema song_files;
  Ok (song_of_row <$> (cells : list row)).

Definition create_log_df (eng : Engine) (log_files : list record) : result (list Log.t) :=
  cells ← read_json eng default_mode log_schema log_files;
  Ok (log_of_row <$> (cells : list row)).

(** What the spec calls a malformed record: a field the schema declares
    not nullable is absent, or holds a token that does not convert. *)
Definition missing_required (schema : StructType) (r : record) : bool :=
  existsb (λ f, negb (field_nullable f) && bool_decide (r !! field_name f = None)) schema.

Definition incompatible (eng : Engine) (schema : StructType) (r : record) : bool :=
  existsb (λ f, negb (field_nullable f) &&
                match r !! field_name f with
                | Some j => bool_decide (convert eng (field_type f) j = None)
                | None => false
                end) schema.

(** The row the default mode makes of a record. *)
Definition permissive_row (eng : Engine) (schema : StructType) (r : record) : row :=
  default (null_row (asNullable schema)) (convert_record eng (asNullable schema) r).

(** ** Dataframe operations *)

(** SQL comparison and conjunction are three-valued: a comparison with
    NULL is NULL, and [filter] and [join] keep a row only where the
    condition is true. *)
Definition sql_eq `{EqDecision A} (a b : option A) : option bool :=
  match a, b with
  | Some x, Some y => Some (bool_decide (x = y))
  | _, _ => None
  end.

Definition sql_and (p q : option bool) : option bool :=
  match p, q with
  | Some false, _ | _, Some false => Some false
  | Some true, Some true => Some true
  | _, _ => None
  end.

Definition df_filter {A} (cond : A → option bool) (df : list A) : list A :=
  filter (λ x, cond x = Some true) df.

(** [dropDuplicates] on a key: one row per key value, the first in the
    order the rows are met; NULL keys count as equal. *)
Fixpoint dropDuplicates `{EqDecision K} {A} (key : A → K) (df : list A) : list A :=
  match df with
  | [] => []
  | x :: df' => x :: filter (λ y, key y ≠ key x) (dropDuplicates key df')
  end.

(** Inner join: every pair of a left and a right row the condition is true of. *)
Definition join {A B} (cond : A → B → option bool) (left : list A) (right : list B)
    : list (A * B) :=
  x ← left; y ← df_filter (cond x) right; [(x, y)].

(** [monotonically_increasing_id]: the partition index in the upper 31 bits
    and the position within the partition in the lower 33 bits of a 64-bit
    signed integer. *)
Definition wrap64 (z : Z) : Z := (z + 2 ^ 63) mod 2 ^ 64 - 2 ^ 63.

Definition monotonically_increasing_id (eng : Engine) (i : nat) : Z :=
  let i := Z.of_nat i in
  wrap64 (Z.shiftl (i / rows_per_partition eng) 33 + i mod rows_per_partition eng).

Definition withColumn_id {A} (eng : Engine) (df : list A) : list (A * Z) :=
  imap (λ i x, (x, monotonically_increasing_id eng i)) df.

(** ** Calendar functions

    A timestamp is a wall-clock time: microseconds counted from
    1970-01-01 00:00:00 on the local clock, the clock the engine reads the
    fields of a timestamp on as well.  The fields are those of the
    proleptic Gregorian calendar; the week is the ISO 8601 week, the one of
    the Thursday of the Monday-to-Sunday week the day lies in. *)

Definition days_of (w : Z) : Z := w / 1000000 / 86400.

Definition hour (w : Z) : Z := (w / 1000000) mod 86400 / 3600.

(** Days are counted in 400-year eras of 146097 days that start on a
    1 March; within the era, years start in March too. *)
Definition day_of_era (d : Z) : Z := (d + 719468) mod 146097.
Definition era (d : Z) : Z := (d + 719468) / 146097.
Definition year_of_era (doe : Z) : Z :=
  (doe - doe / 1460 + doe / 36524 - doe / 146096) / 365.
Definition day_of_march_year (doe : Z) : Z :=
  let yoe := year_of_era doe in doe - (365 * yoe + yoe / 4 - yoe / 100).
Definition month_index (doy : Z) : Z := (5 * doy + 2) / 153.

Definition civil_day (d : Z) : Z :=
  let doy := day_of_march_year (day_of_era d) in
  doy - (153 * month_index doy + 2) / 5 + 1.

Definition civil_month (d : Z) : Z :=
  let mp := month_index (day_of_march_year (day_of_era d)) in
  if bool_decide (mp < 10) then mp + 3 else mp - 9.

Definition civil_year (d : Z) : Z :=
  year_of_era (day_of_era d) + era d * 400
  + (if bool_decide (civil_month d ≤ 2) then 1 else 0).

Definition is_leap (y : Z) : bool :=
  bool_decide (y mod 4 = 0) && (negb (bool_decide (y mod 100 = 0)) || bool_decide (y mod 400 = 0)).

(** The day of the year, from 1. *)
Definition day_of_year (d : Z) : Z :=
  let doy := day_of_march_year (day_of_era d) in
  if bool_decide (month_index doy < 10)
  then doy + 60 + (if is_leap (civil_year d) then 1 else 0)
  else doy - 305.

(** The day number of a calendar date: the inverse of [civil_year],
    [civil_month] and [civil_day]. *)
Definition days_from_civil (y m d : Z) : Z :=
  let y' := if bool_decide (m ≤ 2) then y - 1 else y in
  let era := y' / 400 in
  let yoe := y' - era * 400 in
  let mp := if bool_decide (m > 2) then m - 3 else m + 9 in
  let doy := (153 * mp + 2) / 5 + d - 1 in
  let doe := yoe * 365 + yoe / 4 - yoe / 100 + doy in
  era * 146097 + doe - 719468.

(** 1 is Monday; 1970-01-01 was a Thursday. *)
Definition day_of_week (d : Z) : Z := (d + 3) mod 7 + 1.

Definition iso_week (d : Z) : Z :=
  let thursday := d - (day_of_week d - 1) + 3 in
  (day_of_year thursday - 1) / 7 + 1.

Definition dayofmonth (w : Z) : Z := civil_day (days_of w).
Definition weekofyear (w : Z) : Z := iso_week (days_of w).
Definition month (w : Z) : Z := civil_month (days_of w).
Definition year (w : Z) : Z := civil_year (days_of w).

(** ** The timestamp UDF

    [lambda x: datetime.fromtimestamp(x/1000)]: the local date and time of
    the instant [x] milliseconds after the epoch.  The quotient [x/1000] is
    taken at its exact value (the binary64 quotient, rounded to the
    microsecond, is that value for every instant before the year 2242).
    [None / 1000] raises, and so does a date outside the years 1 to 9999. *)

Definition MINYEAR : Z := 1.
Definition MAXYEAR : Z := 9999.

Definition fromtimestamp (eng : Engine) (x : Z) : result Z :=
  let w := x * 1000 + utcoffset eng (x / 1000) * 1000000 in
  if bool_decide (MINYEAR ≤ year w ≤ MAXYEAR) then Ok w else Err ValueError.

Definition get_timestamp (eng : Engine) (x : option Z) : result Z :=
  match x with
  | None => Err TypeError
  | Some x => fromtimestamp eng x
  end.

(** ** Output tables *)

Module Songs.
Record t := mk {
    song_id : option string;
    title : option string;
    artist_id : option string;
    year : option Z;
    duration : option double
  }.
End Songs.

Module Artists.
Record t := mk {
    artist_id : option string;
    artist : option string;
    location : option string;
    latitude : option string;
    longitude : option string
  }.
End Artists.

Module Users.
Record t := mk {
    userId : option string;
    firstName : option string;
    lastName : option string;
    gender : option string;
    level : option string
  }.
End Users.

Module Time.
Record t := mk {
    start_time : Z;
    hour : Z;
    day : Z;
    week : Z;
    month : Z;
    year : Z
  }.
End Time.

Module Songplays.
Record t := mk {
    start_time : Z;
    userId : option string;
    level : option string;
    song_id : option string;
    artist_id : option string;
    sessionId : option Z;
    location : option string;
    userAgent : option string;
    year : Z;
    month : Z
  }.
End Songplays.

Inductive Table :=
| SongsT (rows : list Songs.t)
| ArtistsT (rows : list Artists.t)
| UsersT (rows : list Users.t)
| TimeT (rows : list Time.t)
| SongplaysT (rows : list Songplays.t).

(** The column names of each table, as its [select] gives them. *)
Definition song_fields : list string :=
  ["song_id"; "title"; "artist_id"; "year"; "duration"].
Definition artist_fields : list string :=
  ["artist_id"; "artist_name"; "artist_location"; "artist_latitude"; "artist_longitude"].
Definition user_fields : list string :=
  ["userId"; "firstName"; "lastName"; "gender"; "level"].
Definition time_fields : list string :=
  ["start_time"; "hour"; "day"; "week"; "month"; "year"].
Definition songplays_fields : list string :=
  ["start_time"; "userId"; "level"; "song_id"; "artist_id"; "sessionId";
   "location"; "userAgent"; "year"; "month"].

Definition withColumnRenamed (existing new : string) (cols : list string) : list string :=
  (λ c, if bool_decide (c = existing) then new else c) <$> cols.

Definition columns (t : Table) : list string :=
  match t with
  | SongsT _ => song_fields
  | ArtistsT _ =>
      withColumnRenamed "artist_longitude" "longitude"
        (withColumnRenamed "artist_latitude" "latitude"
          (withColumnRenamed "artist_location" "location"
            (withColumnRenamed "artist_name" "artist" artist_fields)))
  | UsersT _ => user_fields
  | TimeT _ => time_fields
  | SongplaysT _ => songplays_fields
  end.

Definition num_rows (t : Table) : nat :=
  match t with
  | SongsT l => length l
  | ArtistsT l => length l
  | UsersT l => length l
  | TimeT l => length l
  | SongplaysT l => length l
  end.

(** ** The destination storage and [write.parquet]

    A destination holds the file groups written to it, each with the
    columns it is partitioned by.  The save mode decides what a write does
    to a destination that exists. *)

Record Files := {
  partitionBy : list string;
  content : Table
}.

Inductive SaveMode := Append | Overwrite | ErrorIfExists | Ignore.

Definition write_parquet (path : string) (mode : SaveMode) (partition_cols : list string)
    (t : Table) (store : gmap string (list Files)) : result (gmap string (list Files)) :=
  let new := {| partitionBy := partition_cols; content := t |} in
  match store !! path, mode with
  | None, _ => Ok (<[path := [new]]> store)
  | Some _, Overwrite => Ok (<[path := [new]]> store)
  | Some old, Append => Ok (<[path := old ++ [new]]> store)
  | Some _, ErrorIfExists => Err AnalysisException
  | Some _, Ignore => Ok store
  end.

(** ** [process_song_data] *)

Definition songs_select (r : Song.t) : Songs.t :=
  {| Songs.song_id := Song.song_id r;
     Songs.title := Song.title r;
     Songs.artist_id := Song.artist_id r;
     Songs.year := Song.year r;
     Songs.duration := Song.duration r |}.

Definition artists_select (r : Song.t) : Artists.t :=
  {| Artists.artist_id := Song.artist_id r;
     Artists.artist := Song.artist_name r;
     Artists.location := Song.artist_location r;
     Artists.latitude := Song.artist_latitude r;
     Artists.longitude := Song.artist_longitude r |}.

Definition songs_table (song_df : list Song.t) : list Songs.t :=
  dropDuplicates Songs.song_id (songs_select <$> song_df).

Definition artists_table (song_df : list Song.t) : list Artists.t :=
  dropDuplicates Artists.artist_id (artists_select <$> song_df).

Definition songs_out_path (output_path : string) : string :=
  (output_path +:+ "songs/") +:+ "songs.parquet".
Definition artists_out_path (output_path : string) : string :=
  (output_path +:+ "artists/") +:+ "artists.parquet".

Definition process_song_data (song_df : list Song.t) (output_path : string)
    (store : gmap string (list Files)) : result (gmap string (list Files)) :=
  store ← write_parquet (songs_out_path output_path) Overwrite ["year"; "artist_id"]
             (SongsT (songs_table song_df)) store;
  write_parquet (artists_out_path output_path) Overwrite []
    (ArtistsT (artists_table song_df)) store.

(** ** [process_log_data] *)

Definition is_next_song (e : Log.t) : option bool :=
  sql_eq (Log.page e) (Some "NextSong").

Definition users_select (e : Log.t) : Users.t :=
  {| Users.userId := Log.userId e;
     Users.firstName := Log.firstName e;
     Users.lastName := Log.lastName e;
     Users.gender := Log.gender e;
     Users.level := Log.level e |}.

Definition users_table (log_df : list Log.t) : list Users.t :=
  dropDuplicates Users.userId (users_select <$> df_filter is_next_song log_df).

(** The filtered events with the [timestamp] column the UDF computes. *)
Definition withColumn_timestamp (eng : Engine) (df : list Log.t) : result (list (Log.t * Z)) :=
  mapM (λ e, t ← get_timestamp eng (Log.ts e); Ok (e, t)) df.

Definition time_select (r : Log.t * Z) : Time.t :=
  let timestamp := r.2 in
  {| Time.start_time := timestamp;
     Time.hour := hour timestamp;
     Time.day := dayofmonth timestamp;
     Time.week := weekofyear timestamp;
     Time.month := month timestamp;
     Time.year := year timestamp |}.

Definition time_table (eng : Engine) (log_df : list Log.t) : result (list Time.t) :=
  df ← withColumn_timestamp eng (df_filter is_next_song log_df);
  Ok (dropDuplicates Time.start_time (time_select <$> (df : list (Log.t * Z)))).

(** The join condition [(song_df.title == df.song) & (song_df.artist_name == df.artist)]. *)
Definition song_matches (e : Log.t) (s : Song.t) : option bool :=
  sql_and (sql_eq (Song.title s) (Log.song e))
          (sql_eq (Song.artist_name s) (Log.artist e)).

Definition join_cond (l : Log.t * Z) (s : Song.t) : option bool :=
  song_matches l.1 s.

(** The joined dataframe, with its [songplay_id] column. *)
Definition joined (eng : Engine) (song_df : list Song.t) (log_df : list Log.t)
    : result (list ((Log.t * Z) * Song.t * Z)) :=
  df ← withColumn_timestamp eng (df_filter is_next_song log_df);
  Ok (withColumn_id eng (join join_cond df song_df)).

Definition songplay_id (r : (Log.t * Z) * Song.t * Z) : Z := r.2.

Definition songplays_select (r : (Log.t * Z) * Song.t * Z) : Songplays.t :=
  let '(e, timestamp, s, _) := r in
  {| Songplays.start_time := timestamp;
     Songplays.userId := Log.userId e;
     Songplays.level := Log.level e;
     Songplays.song_id := Song.song_id s;
     Songplays.artist_id := Song.artist_id s;
     Songplays.sessionId := Log.sessionId e;
     Songplays.location := Log.location e;
     Songplays.userAgent := Log.userAgent e;
     Songplays.year := year timestamp;
     Songplays.month := month timestamp |}.

Definition songplays (eng : Engine) (song_df : list Song.t) (log_df : list Log.t)
    : result (list Songplays.t) :=
  df ← joined eng song_df log_df;
  Ok (songplays_select <$> (df : list (Log.t * Z * Song.t * Z))).

(** The rows of [songplays] one log event accounts for: none unless its
    page is NextSong, and then one for each song record the join condition
    is true of. *)
Definition event_rows (eng : Engine) (song_df : list Song.t) (e : Log.t) : list Songplays.t :=
  match is_next_song e, get_timestamp eng (Log.ts e) with
  | Some true, Ok w =>
      (λ s, songplays_select (e, w, s, 0)) <$> df_filter (song_matches e) song_df
  | _, _ => []
  end.

Definition users_out_path (output_path : string) : string :=
  (output_path +:+ "users/") +:+ "users.parquet".
Definition time_out_path (output_path : string) : string :=
  (output_path +:+ "time/") +:+ "time.parquet".
Definition songplays_out_path (output_path : string) : string :=
  (output_path +:+ "songplays/") +:+ "songplays.parquet".

Definition process_log_data (eng : Engine) (song_df : list Song.t) (log_df : list Log.t)
    (output_path : string) (store : gmap string (list Files))
    : result (gmap string (list Files)) :=
  store ← write_parquet (users_out_path output_path) Overwrite []
             (UsersT (users_table log_df)) store;
  time ← time_table eng log_df;
  store ← write_parquet (time_out_path output_path) Overwrite ["year"; "month"]
             (TimeT time) store;
  plays ← songplays eng song_df log_df;
  write_parquet (songplays_out_path output_path) Overwrite ["year"; "month"]
    (SongplaysT plays) store.

(** The five destinations of a run. *)
Definition destinations (output_path : string) : list string :=
  [songs_out_path output_path; artists_out_path output_path;
   users_out_path output_path; time_out_path output_path;
   songplays_out_path output_path].

(** An engine that differs in how it cuts dataframes into partitions, and
    so in the identifiers it hands out. *)
Definition with_partitions (n : Z) (eng : Engine) : Engine :=
  {| utcoffset := utcoffset eng;
     rows_per_partition := n;
     double_of_Z := double_of_Z eng;
     text_of_double := text_of_double eng |}.

(** ** [main]

    The two source locations are read through [sources], the records of
    all the files a location pattern stands for.  Credential setup and
    session creation come first in [main] and touch neither the sources
    nor the destination. *)

Definition song_files : string := "s3a://udacity-dend/song_data/*/*/*/*.json".
Definition log_files : string := "s3a://udacity-dend/log_data/*/*/*.json".
Definition output_path : string := "s3a://project4-alex".

Definition main (eng : Engine) (sources : string → list record)
    (store : gmap string (list Files)) : result (gmap string (list Files)) :=
  song_df ← create_song_df eng (sources song_files);
  log_df ← create_log_df eng (sources log_files);
  store ← process_song_data song_df output_path store;
  process_log_data eng song_df log_df output_path store.

(** ** Example data: the scenario of one song and one play *)

(** An engine on a clock [offset] seconds ahead of UTC. The two number
    conversions are exact on the small integers the examples use. *)
Fixpoint float_of_pos (p : positive) : double :=
  match p with
  | xH => 1%float
  | xO q => (2 * float_of_pos q)%float
  | xI q => (2 * float_of_pos q + 1)%float
  end.

Definition fixed_offset_engine (offset : Z) : Engine :=
  {| utcoffset := λ _, offset;
     rows_per_partition := 2 ^ 33;
     double_of_Z := λ z,
       match z with
       | Z0 => 0%float
       | Zpos p => float_of_pos p
       | Zneg p => (- float_of_pos p)%float
       end;
     text_of_double := λ _, "" |}.

Definition utc_engine : Engine := fixed_offset_engine 0.

Definition song_S1 : record :=
  list_to_map [
    ("song_id", JString "S1"); ("title", JString "Test");
    ("artist_id", JString "A1"); ("artist_name", JString "Artist");
    ("year", JInt 2000); ("duration", JFloat 200%float)].

Definition play_U1 : record :=
  list_to_map [
    ("page", JString "NextSong"); ("song", JString "Test");
    ("artist", JString "Artist"); ("userId", JString "U1");
    ("ts", JInt 1541121934796); ("sessionId", JInt 1);
    ("level", JString "free"); ("location", JString "X");
    ("userAgent", JString "Y")].

Definition scenario_sources (songs logs : list record) : string → list record :=
  λ location,
    if bool_decide (location = song_files) then songs
    else if bool_decide (location = log_files) then logs
    else [].

(** A visit of the home page by the same user, and the dataframes the
    readers make of these records. *)
Definition home_U1 : record := <["page" := JString "Home"]> play_U1.

Definition row_song (song_id : string) : Song.t :=
  {| Song.artist_id := Some "A1";
     Song.artist_latitude := None;
     Song.artist_longitude := None;
     Song.artist_location := None;
     Song.artist_name := Some "Artist";
     Song.song_id := Some song_id;
     Song.title := Some "Test";
     Song.duration := Some 200%float;
     Song.year := Some 2000 |}.

Definition row_S1 : Song.t := row_song "S1".

(** A second recording of the same title by the same artist. *)
Definition row_S2 : Song.t := row_song "S2".

Definition row_U1 (page : string) : Log.t :=
  {| Log.artist := Some "Artist";
     Log.auth := None;
     Log.firstName := None;
     Log.gender := None;
     Log.itemInSession := None;
     Log.lastName := None;
     Log.length := None;
     Log.level := Some "free";
     Log.location := Some "X";
     Log.method := None;
     Log.page := Some page;
     Log.registration := None;
     Log.sessionId := Some 1;
     Log.song := Some "Test";
     Log.status := None;
     Log.ts := Some 1541121934796;
     Log.userAgent := Some "Y";
     Log.userId := Some "U1" |}.

Definition time_U1 : Time.t :=
  {| Time.start_time := 1541121934796000;
     Time.hour := 1;
     Time.day := 2;
     Time.week := 44;
     Time.month := 11;
     Time.year := 2018 |}.

Definition songplay_of (song_id : string) : Songplays.t :=
  {| Songplays.start_time := 1541121934796000;
     Songplays.userId := Some "U1";
     Songplays.level := Some "free";
     Songplays.song_id := Some song_id;
     Songplays.artist_id := Some "A1";
     Songplays.sessionId := Some 1;
     Songplays.location := Some "X";
     Songplays.userAgent := Some "Y";
     Songplays.year := 2018;
     Songplays.month := 11 |}.

Definition songplay_U1 : Songplays.t := songplay_of "S1".

(** The same play on a clock seven hours behind UTC. *)
Definition pacific_engine : Engine := fixed_offset_engine (-25200).

Definition time_U1_pacific : Time.t :=
  {| Time.start_time := 1541096734796000;
     Time.hour := 18;
     Time.day := 1;
     Time.week := 44;
     Time.month := 11;
     Time.year := 2018 |}.

(** What a string column and a long column hold of a token that converts. *)
Definition string_of_token (eng : Engine) (j : json) : option string :=
  match j with
  | JNull => None
  | _ => Some (json_text eng j)
  end.

Definition long_of_token (j : json) : option Z :=
  match j with
  | JInt z => Some z
  | _ => None
  end.

(** A record with a token, of any field of the schema, that does not convert. *)
Definition has_bad_token (eng : Engine) (schema : StructType) (r : record) : bool :=
  existsb (λ f, match r !! field_name f with
                | Some j => bool_decide (convert eng (field_type f) j = None)
                | None => false
                end) schema.

(** * Properties *)

(** ** The scenario, run *)

Example friday_2018_11_02 :
  (year 1541121934796000, month 1541121934796000, dayofmonth 1541121934796000,
   hour 1541121934796000, weekofyear 1541121934796000) = (2018, 11, 2, 1, 44).
Proof. reflexivity. Qed.

Example create_song_df_S1 : create_song_df utc_engine [song_S1] = Ok [row_S1].
Proof. reflexivity. Qed.

Example create_log_df_U1 :
  create_log_df utc_engine [play_U1; home_U1] = Ok [row_U1 "NextSong"; row_U1 "Home"].
Proof. reflexivity. Qed.

(** ** The error monad *)

Lemma bind_Ok {A B} (m : result A) (f : A → result B) (b : B) :
  m ≫= f = Ok b ↔ ∃ a, m = Ok a ∧ f a = Ok b.
Proof.
  destruct m as [a|e]; simpl; split.
  - eauto.
  - intros (a' & Heq & Hf). by simplify_eq.
  - done.
  - by intros (? & ? & ?).
Qed.

(** ** [dropDuplicates] *)

Section dropDuplicates.
Context `{EqDecision K} {A : Type} (key : A → K).

Lemma dropDuplicates_subset (df : list A) (x : A) :
    x ∈ dropDuplicates key df → x ∈ df.
  Proof.
    induction df as [|y df IH]; simpl; [done|].
    rewrite !elem_of_cons, list_elem_of_filter.
    intros [->|[_ Hx]]; [by left|right; auto].
  Qed.

Lemma dropDuplicates_keys (df : list A) (k : K) :
    k ∈ key <$> dropDuplicates key df ↔ k ∈ key <$> df.
  Proof.
    induction df as [|y df IH]; simpl; [done|].
    rewrite !elem_of_cons, <- IH, !list_elem_of_fmap.
    split.
    - intros [->|(x & -> & Hx)]; [by left|].
      apply list_elem_of_filter in Hx as [_ Hx]. right; eauto.
    - intros [->|(x & -> & Hx)]; [by left|].
      destruct (decide (key x = key y)) as [->|Hne]; [by left|].
      right. exists x. split; [done|]. by apply list_elem_of_filter.
  Qed.

Lemma dropDuplicates_NoDup (df : list A) :
    NoDup (key <$> dropDuplicates key df).
  Proof.
    induction df as [|y df IH]; simpl; [constructor|].
    constructor.
    - rewrite list_elem_of_fmap. intros (x & Hk & Hx).
      apply list_elem_of_filter in Hx as [Hne _]. congruence.
    - induction (dropDuplicates key df) as [|z l IHl]; simpl; [constructor|].
      apply NoDup_cons in IH as [Hz Hl].
      rewrite filter_cons. case_decide; simpl; [|by apply IHl].
      constructor; [|by apply IHl].
      rewrite list_elem_of_fmap. intros (x & Hk & Hx).
      apply list_elem_of_filter in Hx as [_ Hx].
      apply Hz. rewrite Hk. by apply list_elem_of_fmap_2.
  Qed.

  (** At most one row per key value: two rows with one key are one row. *)
Lemma dropDuplicates_unique (df : list A) (i j : nat) (x y : A) :
    dropDuplicates key df !! i = Some x →
    dropDuplicates key df !! j = Some y →
    key x = key y → i = j.
  Proof.
    intros Hi Hj Hk.
    eapply NoDup_lookup; [apply dropDuplicates_NoDup| |].
    - rewrite list_lookup_fmap, Hi. done.
    - rewrite list_lookup_fmap, Hj. simpl. by rewrite Hk.
  Qed.
End dropDuplicates.

(** ** [filter], [join], the identifier column and the timestamp column *)

Lemma elem_of_df_filter {A} (cond : A → option bool) (df : list A) (x : A) :
  x ∈ df_filter cond df ↔ cond x = Some true ∧ x ∈ df.
Proof. unfold df_filter. by rewrite list_elem_of_filter. Qed.

Lemma df_filter_idemp {A} (cond : A → option bool) (df : list A) :
  df_filter cond (df_filter cond df) = df_filter cond df.
Proof.
  unfold df_filter. induction df as [|x df IH]; [done|].
  rewrite filter_cons. case_decide as Hx; [|done].
  rewrite filter_cons. case_decide; [|done]. by rewrite IH.
Qed.

Lemma is_next_song_true (e : Log.t) :
  is_next_song e = Some true ↔ Log.page e = Some "NextSong".
Proof.
  unfold is_next_song, sql_eq. destruct (Log.page e) as [p|]; [|done].
  case_bool_decide; naive_solver.
Qed.

Lemma join_cond_true (l : Log.t * Z) (s : Song.t) :
  join_cond l s = Some true ↔
  (∃ t, Song.title s = Some t ∧ Log.song l.1 = Some t) ∧
  (∃ a, Song.artist_name s = Some a ∧ Log.artist l.1 = Some a).
Proof.
  unfold join_cond, song_matches, sql_and, sql_eq.
  destruct (Song.title s), (Log.song l.1), (Song.artist_name s), (Log.artist l.1);
    repeat case_bool_decide; naive_solver.
Qed.

Lemma elem_of_join {A B} (cond : A → B → option bool) (left : list A) (right : list B)
    (x : A) (y : B) :
  (x, y) ∈ join cond left right ↔ x ∈ left ∧ y ∈ right ∧ cond x y = Some true.
Proof.
  unfold join. rewrite list_elem_of_bind. split.
  - intros (x' & Hxy & Hx').
    apply list_elem_of_bind in Hxy as (y' & Hxy & Hy').
    apply list_elem_of_singleton in Hxy as [= -> ->].
    apply elem_of_df_filter in Hy' as [? ?]. done.
  - intros (Hx & Hy & Hc). exists x. split; [|done].
    apply list_elem_of_bind. exists y. split; [by apply list_elem_of_singleton|].
    by apply elem_of_df_filter.
Qed.

Lemma elem_of_withColumn_id {A} (eng : Engine) (df : list A) (x : A) (id : Z) :
  (x, id) ∈ withColumn_id eng df → x ∈ df.
Proof.
  unfold withColumn_id. intros (i & y & [= -> ->] & Hy)%elem_of_lookup_imap.
  by eapply list_elem_of_lookup_2.
Qed.

Lemma withColumn_id_fst {A} (eng : Engine) (df : list A) :
  (withColumn_id eng df).*1 = df.
Proof.
  unfold withColumn_id. apply list_eq. intros i.
  rewrite list_lookup_fmap, list_lookup_imap. by destruct (df !! i).
Qed.

Lemma withColumn_timestamp_Ok (eng : Engine) (df : list Log.t) (l : list (Log.t * Z)) :
  withColumn_timestamp eng df = Ok l ↔
  Forall2 (λ e r, r.1 = e ∧ get_timestamp eng (Log.ts e) = Ok r.2) df l.
Proof.
  unfold withColumn_timestamp. revert l.
  induction df as [|e df IH]; intros l; simpl.
  - split; [intros [= <-]; constructor|by intros ->%Forall2_nil_inv_l].
  - split.
    + intros (r & Hr & Hl)%bind_Ok.
      apply bind_Ok in Hr as (t & Ht & [= <-]).
      apply bind_Ok in Hl as (k & Hk & [= <-]).
      constructor; [done|]. by apply IH.
    + intros (r & k & [<- Ht] & Hk & ->)%Forall2_cons_inv_l.
      apply IH in Hk. cbn in *. rewrite Ht. cbn. rewrite Hk. cbn.
      by destruct r.
Qed.

Lemma withColumn_timestamp_fst (eng : Engine) (df : list Log.t) (l : list (Log.t * Z)) :
  withColumn_timestamp eng df = Ok l → l.*1 = df.
Proof.
  intros H%withColumn_timestamp_Ok.
  induction H as [|e r df l [<- _] _ IH]; [done|]. by rewrite fmap_cons, IH.
Qed.

Lemma elem_of_withColumn_timestamp (eng : Engine) (df : list Log.t)
    (l : list (Log.t * Z)) (r : Log.t * Z) :
  withColumn_timestamp eng df = Ok l → r ∈ l →
  r.1 ∈ df ∧ get_timestamp eng (Log.ts r.1) = Ok r.2.
Proof.
  intros H%withColumn_timestamp_Ok Hr.
  induction H as [|e r' df l [<- Ht] _ IH]; [by apply elem_of_nil in Hr|].
  apply elem_of_cons in Hr as [->|Hr].
  - split; [left|done].
  - destruct (IH Hr). split; [by right|done].
Qed.

(** The UDF succeeds on the whole column exactly when it does on every row. *)
Lemma withColumn_timestamp_total (eng : Engine) (df : list Log.t) :
  (∀ e, e ∈ df → ∃ w, get_timestamp eng (Log.ts e) = Ok w) →
  ∃ l, withColumn_timestamp eng df = Ok l.
Proof.
  induction df as [|e df IH]; intros Hall.
  - by exists [].
  - destruct (Hall e) as [w Hw]; [left|].
    destruct IH as [l Hl]; [intros; apply Hall; by right|].
    exists ((e, w) :: l). unfold withColumn_timestamp in *. cbn.
    rewrite Hw. cbn. by rewrite Hl.
Qed.

(** ** The dimension tables of the song data *)

(** C5. For every song input, the [songs] table has at most one row per
    [song_id] and the [artists] table at most one row per [artist_id], and
    every [song_id] and every [artist_id] of the input is the key of a row
    of the respective table. *)
Theorem C5_song_dimension_keys (song_df : list Song.t) :
  NoDup (Songs.song_id <$> songs_table song_df) ∧
  NoDup (Artists.artist_id <$> artists_table song_df) ∧
  (∀ r, r ∈ song_df → Song.song_id r ∈ Songs.song_id <$> songs_table song_df) ∧
  (∀ r, r ∈ song_df → Song.artist_id r ∈ Artists.artist_id <$> artists_table song_df).
Proof.
  unfold songs_table, artists_table. repeat split.
  - apply dropDuplicates_NoDup.
  - apply dropDuplicates_NoDup.
  - intros r Hr. apply dropDuplicates_keys.
    rewrite <- list_fmap_compose. by apply (list_elem_of_fmap_2 _ _ r).
  - intros r Hr. apply dropDuplicates_keys.
    rewrite <- list_fmap_compose. by apply (list_elem_of_fmap_2 _ _ r).
Qed.

(** ** The tables of the log data derive from the filtered events *)

Lemma users_table_from (log_df : list Log.t) (u : Users.t) :
  u ∈ users_table log_df →
  ∃ e, e ∈ log_df ∧ Log.page e = Some "NextSong" ∧ u = users_select e.
Proof.
  unfold users_table. intros Hu%dropDuplicates_subset.
  apply list_elem_of_fmap in Hu as (e & -> & He).
  apply elem_of_df_filter in He as [Hp He].
  exists e. by rewrite <- is_next_song_true.
Qed.

Lemma time_table_from (eng : Engine) (log_df : list Log.t) (tt : list Time.t) (t : Time.t) :
  time_table eng log_df = Ok tt → t ∈ tt →
  ∃ e w, e ∈ log_df ∧ Log.page e = Some "NextSong" ∧
         get_timestamp eng (Log.ts e) = Ok w ∧ t = time_select (e, w).
Proof.
  unfold time_table. intros (df & Hdf & [= <-])%bind_Ok Ht%dropDuplicates_subset.
  apply list_elem_of_fmap in Ht as ([e w] & -> & Hr).
  destruct (elem_of_withColumn_timestamp _ _ _ _ Hdf Hr) as [He Hw].
  apply elem_of_df_filter in He as [Hp He].
  exists e, w. by rewrite <- is_next_song_true.
Qed.

Lemma songplays_from (eng : Engine) (song_df : list Song.t) (log_df : list Log.t)
    (sp : list Songplays.t) (p : Songplays.t) :
  songplays eng song_df log_df = Ok sp → p ∈ sp →
  ∃ e w s id, e ∈ log_df ∧ Log.page e = Some "NextSong" ∧ s ∈ song_df ∧
              get_timestamp eng (Log.ts e) = Ok w ∧
              join_cond (e, w) s = Some true ∧
              p = songplays_select (e, w, s, id).
Proof.
  unfold songplays, joined.
  intros (j & (df & Hdf & [= <-])%bind_Ok & [= <-])%bind_Ok Hp.
  apply list_elem_of_fmap in Hp as ([[[e w] s] id] & -> & Hr).
  apply elem_of_withColumn_id, elem_of_join in Hr as (Hl & Hs & Hc).
  destruct (elem_of_withColumn_timestamp _ _ _ _ Hdf Hl) as [He Hw].
  apply elem_of_df_filter in He as [Hp He].
  exists e, w, s, id. by rewrite <- is_next_song_true.
Qed.

(** C6. Every row of [users], [time] and [songplays] derives from a log
    event whose page is NextSong, and the events with another page
    contribute nothing: two logs with the same NextSong events give the
    same three tables. *)
Theorem C6_only_next_song_events (eng : Engine) (song_df : list Song.t)
    (log_df : list Log.t) (tt : list Time.t) (sp : list Songplays.t) :
  time_table eng log_df = Ok tt →
  songplays eng song_df log_df = Ok sp →
  (∀ u, u ∈ users_table log_df →
     ∃ e, e ∈ log_df ∧ Log.page e = Some "NextSong" ∧ u = users_select e) ∧
  (∀ t, t ∈ tt →
     ∃ e w, e ∈ log_df ∧ Log.page e = Some "NextSong" ∧
            get_timestamp eng (Log.ts e) = Ok w ∧ t = time_select (e, w)) ∧
  (∀ p, p ∈ sp →
     ∃ e w s id, e ∈ log_df ∧ Log.page e = Some "NextSong" ∧ s ∈ song_df ∧
                 get_timestamp eng (Log.ts e) = Ok w ∧
                 p = songplays_select (e, w, s, id)) ∧
  (∀ log_df',
     df_filter is_next_song log_df' = df_filter is_next_song log_df →
     users_table log_df' = users_table log_df ∧
     time_table eng log_df' = Ok tt ∧
     songplays eng song_df log_df' = Ok sp).
Proof.
  intros Htt Hsp. repeat split.
  - apply users_table_from.
  - intros t Ht. by eapply time_table_from.
  - intros p Hp.
    destruct (songplays_from _ _ _ _ _ Hsp Hp) as (e & w & s & id & ? & ? & ? & ? & ? & ?).
    by exists e, w, s, id.
  - unfold users_table. by rewrite H.
  - rewrite <- Htt. unfold time_table. by rewrite H.
  - rewrite <- Hsp. unfold songplays, joined. by rewrite H.
Qed.

Lemma C6_only_next_song_events_witness :
  time_table utc_engine [row_U1 "NextSong"; row_U1 "Home"] = Ok [time_U1] ∧
  songplays utc_engine [row_S1] [row_U1 "NextSong"; row_U1 "Home"] = Ok [songplay_U1] ∧
  users_table [row_U1 "NextSong"] = users_table [row_U1 "NextSong"; row_U1 "Home"] ∧
  time_table utc_engine [row_U1 "NextSong"] = Ok [time_U1] ∧
  songplays utc_engine [row_S1] [row_U1 "NextSong"] = Ok [songplay_U1].
Proof.
  split; [reflexivity|]. split; [reflexivity|].
  apply (C6_only_next_song_events utc_engine [row_S1]
           [row_U1 "NextSong"; row_U1 "Home"] [time_U1] [songplay_U1]);
    reflexivity.
Defined.

(** ** The rows of the fact table *)

Lemma songplays_select_id (eng : Engine) (df : list (Log.t * Z * Song.t)) :
  songplays_select <$> withColumn_id eng df = (λ x, songplays_select (x, 0)) <$> df.
Proof.
  unfold withColumn_id. apply list_eq. intros i.
  rewrite !list_lookup_fmap, list_lookup_imap.
  by destruct (df !! i) as [[[e w] s]|].
Qed.

Lemma fmap_join {A B C} (cond : A → B → option bool) (g : A * B → C)
    (left : list A) (right : list B) :
  g <$> join cond left right
  = left ≫= (λ x, (λ y, g (x, y)) <$> df_filter (cond x) right).
Proof.
  unfold join. induction left as [|x left IH]; [done|].
  cbn. rewrite fmap_app, IH. f_equal.
  induction (df_filter (cond x) right) as [|y l IHl]; [done|].
  cbn. by rewrite IHl.
Qed.

Lemma bind_event_rows (eng : Engine) (song_df : list Song.t) (log_df : list Log.t)
    (df : list (Log.t * Z)) :
  withColumn_timestamp eng (df_filter is_next_song log_df) = Ok df →
  df ≫= (λ r, (λ s, songplays_select (r, s, 0)) <$> df_filter (join_cond r) song_df)
  = log_df ≫= event_rows eng song_df.
Proof.
  revert df. induction log_df as [|e log_df IH]; intros df.
  - by intros [= <-].
  - unfold df_filter at 1. rewrite filter_cons.
    change ((e :: log_df) ≫= event_rows eng song_df)
      with (event_rows eng song_df e ++ log_df ≫= event_rows eng song_df).
    case_decide as Hp.
    + intros Hdf%withColumn_timestamp_Ok.
      apply Forall2_cons_inv_l in Hdf as ([e' w] & df' & [He Hw] & Hdf & ->).
      simpl in He, Hw. subst e'.
      unfold event_rows at 1. rewrite Hp, Hw. cbn [mbind list_bind].
      f_equal. apply IH. by apply withColumn_timestamp_Ok.
    + intros Hdf. rewrite <- (IH df Hdf).
      unfold event_rows at 1.
      by destruct (is_next_song e) as [[]|].
Qed.

Lemma length_event_rows (eng : Engine) (song_df : list Song.t) (e : Log.t) (w : Z) :
  get_timestamp eng (Log.ts e) = Ok w →
  length (event_rows eng song_df e)
  = if decide (Log.page e = Some "NextSong")
    then length (df_filter (song_matches e) song_df) else 0%nat.
Proof.
  intros Hw. unfold event_rows. rewrite Hw. case_decide as Hp.
  - apply is_next_song_true in Hp. rewrite Hp. by rewrite length_fmap.
  - rewrite <- is_next_song_true in Hp. by destruct (is_next_song e) as [[]|].
Qed.

(** C3, as the code has it. When the timestamp column can be computed,
    [songplays] is made of the rows of each log event in turn: a NextSong
    event has one row for every song record whose title and artist name
    equal its song and artist (one row when one record matches, none and
    no error when none does), and any other event has no row. *)
Theorem C3_songplays_rows_per_event (eng : Engine) (song_df : list Song.t)
    (log_df : list Log.t) (df : list (Log.t * Z)) :
  withColumn_timestamp eng (df_filter is_next_song log_df) = Ok df →
  songplays eng song_df log_df = Ok (log_df ≫= event_rows eng song_df) ∧
  (∀ e, Log.page e ≠ Some "NextSong" → event_rows eng song_df e = []) ∧
  (∀ e w, Log.page e = Some "NextSong" → get_timestamp eng (Log.ts e) = Ok w →
     length (event_rows eng song_df e) = length (df_filter (song_matches e) song_df) ∧
     ∀ p, p ∈ event_rows eng song_df e ↔
          ∃ s, s ∈ song_df ∧ song_matches e s = Some true ∧
               p = songplays_select (e, w, s, 0)).
Proof.
  intros Hdf. split; [|split].
  - unfold songplays, joined. rewrite Hdf. cbn. f_equal.
    rewrite songplays_select_id, fmap_join. by apply bind_event_rows.
  - intros e Hp. rewrite <- is_next_song_true in Hp. unfold event_rows.
    by destruct (is_next_song e) as [[]|].
  - intros e w Hp Hw. split.
    + rewrite (length_event_rows _ _ _ _ Hw). by case_decide.
    + intros p. unfold event_rows. apply is_next_song_true in Hp.
      rewrite Hp, Hw, list_elem_of_fmap. split.
      * intros (s & -> & Hs). apply elem_of_df_filter in Hs as [? ?]. eauto.
      * intros (s & Hs & Hm & ->). exists s. split; [done|].
        by apply elem_of_df_filter.
Qed.

(** C3, as the spec has it, fails: one NextSong event that matches two song
    records has two rows, not one. *)
Lemma C3_counterexample :
  songplays utc_engine [row_S1; row_S2] [row_U1 "NextSong"]
  = Ok [songplay_of "S1"; songplay_of "S2"] ∧
  Log.page (row_U1 "NextSong") = Some "NextSong" ∧
  song_matches (row_U1 "NextSong") row_S1 = Some true ∧
  song_matches (row_U1 "NextSong") row_S2 = Some true.
Proof. repeat split; reflexivity. Qed.

Lemma C3_songplays_rows_per_event_witness :
  withColumn_timestamp utc_engine
    (df_filter is_next_song [row_U1 "NextSong"; row_U1 "Home"])
  = Ok [(row_U1 "NextSong", 1541121934796000)] ∧
  songplays utc_engine [row_S1; row_S2] [row_U1 "NextSong"; row_U1 "Home"]
  = Ok ([row_U1 "NextSong"; row_U1 "Home"] ≫= event_rows utc_engine [row_S1; row_S2]).
Proof.
  split; [reflexivity|].
  apply (C3_songplays_rows_per_event utc_engine [row_S1; row_S2]
           [row_U1 "NextSong"; row_U1 "Home"] [(row_U1 "NextSong", 1541121934796000)]).
  reflexivity.
Defined.

(** ** The calendar *)

Lemma day_of_era_range (d : Z) : 0 ≤ day_of_era d ≤ 146096.
Proof. unfold day_of_era. Z.div_mod_to_equations. lia. Qed.

Lemma year_of_era_range (doe : Z) :
  0 ≤ doe ≤ 146096 → 0 ≤ year_of_era doe ≤ 399.
Proof. intros H. unfold year_of_era. Z.div_mod_to_equations. lia. Qed.

Lemma day_of_march_year_range (doe : Z) :
  0 ≤ doe ≤ 146096 → 0 ≤ day_of_march_year doe ≤ 365.
Proof.
  intros H. unfold day_of_march_year, year_of_era.
  Z.div_mod_to_equations. lia.
Qed.

Lemma month_index_range (doy : Z) : 0 ≤ doy ≤ 365 → 0 ≤ month_index doy ≤ 11.
Proof. intros H. unfold month_index. Z.div_mod_to_equations. lia. Qed.

Lemma civil_day_range (d : Z) : 1 ≤ civil_day d ≤ 31.
Proof.
  unfold civil_day.
  pose proof (day_of_march_year_range _ (day_of_era_range d)) as H.
  generalize dependent (day_of_march_year (day_of_era d)). intros doy H.
  unfold month_index. Z.div_mod_to_equations. lia.
Qed.

Lemma civil_month_range (d : Z) : 1 ≤ civil_month d ≤ 12.
Proof.
  unfold civil_month.
  pose proof (month_index_range _ (day_of_march_year_range _ (day_of_era_range d))) as H.
  case_bool_decide; lia.
Qed.

Lemma day_of_year_range (d : Z) : 1 ≤ day_of_year d ≤ 366.
Proof.
  unfold day_of_year.
  pose proof (day_of_march_year_range _ (day_of_era_range d)) as H.
  generalize dependent (day_of_march_year (day_of_era d)). intros doy H.
  case_bool_decide as Hm; unfold month_index in Hm.
  - destruct (is_leap _); Z.div_mod_to_equations; lia.
  - Z.div_mod_to_equations; lia.
Qed.

Lemma day_of_week_range (d : Z) : 1 ≤ day_of_week d ≤ 7.
Proof. unfold day_of_week. Z.div_mod_to_equations. lia. Qed.

Lemma iso_week_range (d : Z) : 1 ≤ iso_week d ≤ 53.
Proof.
  unfold iso_week. cbv zeta.
  pose proof (day_of_year_range (d - (day_of_week d - 1) + 3)) as H.
  Z.div_mod_to_equations. lia.
Qed.

Lemma hour_range (w : Z) : 0 ≤ hour w ≤ 23.
Proof. unfold hour. Z.div_mod_to_equations. lia. Qed.

(** The year, month and day are those of the day: the date they name is
    that day again. *)
Lemma days_from_civil_of_day (d : Z) :
  days_from_civil (civil_year d) (civil_month d) (civil_day d) = d.
Proof.
  unfold days_from_civil, civil_year, civil_day. cbv zeta.
  pose proof (day_of_era_range d) as He.
  pose proof (day_of_march_year_range _ He) as Hy.
  pose proof (month_index_range _ Hy) as Hm.
  pose proof (year_of_era_range _ He) as Hyoe.
  unfold civil_month in *.
  assert (Hd : d + 719468 = era d * 146097 + day_of_era d).
  { unfold era, day_of_era. Z.div_mod_to_equations. lia. }
  generalize dependent (era d). intros er Hd.
  unfold day_of_march_year in *.
  generalize dependent (year_of_era (day_of_era d)). intros yoe Hy Hm Hyoe.
  generalize dependent (day_of_era d). intros doe He Hd Hy Hm.
  set (doy := doe - (365 * yoe + yoe / 4 - yoe / 100)) in *.
  assert (Hdd : (153 * month_index doy + 2) / 5 ≤ doy
                < (153 * (month_index doy + 1) + 2) / 5).
  { unfold month_index. clearbody doy. Z.div_mod_to_equations. lia. }
  generalize dependent (month_index doy). intros mp Hm Hdd.
  assert (Hq : (yoe + er * 400) / 400 = er) by (Z.div_mod_to_equations; lia).
  subst doy.
  repeat case_bool_decide; try lia;
    rewrite ?Z.add_0_r, ?Z.add_simpl_r, ?Z.sub_add, Hq, ?Z.add_simpl_r; lia.
Qed.

(** The start of the day and the hour bracket the second of the timestamp. *)
Lemma hour_of_timestamp (w : Z) :
  let s := w / 1000000 in
  days_of w * 86400 + hour w * 3600 ≤ s < days_of w * 86400 + (hour w + 1) * 3600.
Proof. unfold days_of, hour. cbv zeta. Z.div_mod_to_equations. lia. Qed.

(** ** The time table *)

Lemma fromtimestamp_Ok (eng : Engine) (x w : Z) :
  fromtimestamp eng x = Ok w ↔
  w = x * 1000 + utcoffset eng (x / 1000) * 1000000 ∧ MINYEAR ≤ year w ≤ MAXYEAR.
Proof.
  unfold fromtimestamp. cbv zeta. case_bool_decide as Hy; split.
  - by intros [= <-].
  - by intros [-> _].
  - done.
  - intros [-> ?]. done.
Qed.

Lemma get_timestamp_Ok (eng : Engine) (x : option Z) (w : Z) :
  get_timestamp eng x = Ok w ↔
  ∃ ms, x = Some ms ∧ w = ms * 1000 + utcoffset eng (ms / 1000) * 1000000 ∧
        MINYEAR ≤ year w ≤ MAXYEAR.
Proof.
  destruct x as [ms|]; simpl.
  - rewrite fromtimestamp_Ok. naive_solver.
  - naive_solver.
Qed.



(** ** The readers *)

Lemma parse_records_permissive (eng : Engine) (schema : StructType) (rs : list record) :
  parse_records eng PERMISSIVE schema rs
  = Ok ((λ r, default (null_row schema) (convert_record eng schema r)) <$> rs).
Proof.
  induction rs as [|r rs IH]; [done|].
  cbn [parse_records fmap list_fmap]. unfold parse_record.
  destruct (convert_record eng schema r); cbn; by rewrite IH.
Qed.

Lemma read_json_default (eng : Engine) (schema : StructType) (rs : list record) :
  read_json eng default_mode schema rs = Ok (permissive_row eng schema <$> rs).
Proof. unfold read_json, default_mode. apply parse_records_permissive. Qed.

Lemma convert_record_lookup (eng : Engine) (schema : StructType) (r : record)
    (cells : row) (i : nat) (f : StructField) :
  convert_record eng schema r = Some cells → schema !! i = Some f →
  ∃ c, cells !! i = Some c ∧ convert_field eng r f = Some c.
Proof.
  unfold convert_record. intros Hm%mapM_Some Hf.
  destruct (Forall2_lookup_l _ _ _ _ _ Hm Hf) as (c & ? & ?). eauto.
Qed.

(** An absent field is NULL in the row, whatever the schema says of it. *)
Lemma permissive_row_absent (eng : Engine) (schema : StructType) (r : record)
    (i : nat) (f : StructField) :
  schema !! i = Some f → r !! field_name f = None →
  permissive_row eng schema r !! i = Some None.
Proof.
  intros Hf Hr. unfold permissive_row.
  assert (Hf' : asNullable schema !! i
                = Some (Field (field_name f) (field_type f) true)).
  { unfold asNullable. by rewrite list_lookup_fmap, Hf. }
  destruct (convert_record eng (asNullable schema) r) as [cells|] eqn:Hc.
  - destruct (convert_record_lookup _ _ _ _ _ _ Hc Hf') as (c & Hi & Hcf).
    unfold convert_field in Hcf. simpl in Hcf. rewrite Hr in Hcf.
    simpl. congruence.
  - change (null_row (asNullable schema) !! i = Some None).
    unfold null_row. by rewrite list_lookup_fmap, Hf'.
Qed.

(** A token that does not convert leaves a row of NULLs. *)
Lemma permissive_row_incompatible (eng : Engine) (schema : StructType) (r : record)
    (i : nat) (f : StructField) (j : json) :
  schema !! i = Some f → r !! field_name f = Some j →
  convert eng (field_type f) j = None →
  permissive_row eng schema r = null_row schema.
Proof.
  intros Hf Hr Hj. unfold permissive_row.
  assert (Hf' : asNullable schema !! i
                = Some (Field (field_name f) (field_type f) true)).
  { unfold asNullable. by rewrite list_lookup_fmap, Hf. }
  destruct (convert_record eng (asNullable schema) r) as [cells|] eqn:Hc.
  - destruct (convert_record_lookup _ _ _ _ _ _ Hc Hf') as (c & _ & Hcf).
    unfold convert_field in Hcf. simpl in Hcf. rewrite Hr in Hcf. congruence.
  - change (null_row (asNullable schema) = null_row schema).
    unfold null_row, asNullable. by rewrite <- list_fmap_compose.
Qed.



(** ** Writing the tables *)

Lemma write_parquet_overwrite (path : string) (cols : list string) (t : Table)
    (store : gmap string (list Files)) :
  write_parquet path Overwrite cols t store
  = Ok (<[path := [{| partitionBy := cols; content := t |}]]> store).
Proof. unfold write_parquet. by destruct (store !! path). Qed.

Lemma append_assoc (a b c : string) : (a +:+ b) +:+ c = a +:+ (b +:+ c).
Proof.
  induction a as [|x a IH]; [done|].
  change (String x ((a +:+ b) +:+ c) = String x (a +:+ (b +:+ c))).
  by rewrite IH.
Qed.

Lemma destinations_NoDup (output_path : string) : NoDup (destinations output_path).
Proof.
  unfold destinations, songs_out_path, artists_out_path, users_out_path,
    time_out_path, songplays_out_path.
  rewrite !append_assoc.
  apply (NoDup_fmap_2 (String.append output_path)
           ["songs/" +:+ "songs.parquet"; "artists/" +:+ "artists.parquet";
            "users/" +:+ "users.parquet"; "time/" +:+ "time.parquet";
            "songplays/" +:+ "songplays.parquet"]).
  apply (bool_decide_unpack _). by vm_compute.
Qed.

Lemma process_song_data_Ok (song_df : list Song.t) (output_path : string)
    (store : gmap string (list Files)) :
  process_song_data song_df output_path store
  = Ok (<[artists_out_path output_path :=
            [{| partitionBy := []; content := ArtistsT (artists_table song_df) |}]]>
        (<[songs_out_path output_path :=
            [{| partitionBy := ["year"; "artist_id"];
                content := SongsT (songs_table song_df) |}]]> store)).
Proof.
  unfold process_song_data. rewrite write_parquet_overwrite. cbn.
  by rewrite write_parquet_overwrite.
Qed.

Lemma process_log_data_Ok (eng : Engine) (song_df : list Song.t) (log_df : list Log.t)
    (output_path : string) (store store' : gmap string (list Files)) :
  process_log_data eng song_df log_df output_path store = Ok store' ↔
  ∃ tt sp, time_table eng log_df = Ok tt ∧ songplays eng song_df log_df = Ok sp ∧
    store' =
      <[songplays_out_path output_path :=
          [{| partitionBy := ["year"; "month"]; content := SongplaysT sp |}]]>
      (<[time_out_path output_path :=
          [{| partitionBy := ["year"; "month"]; content := TimeT tt |}]]>
       (<[users_out_path output_path :=
          [{| partitionBy := []; content := UsersT (users_table log_df) |}]]> store)).
Proof.
  unfold process_log_data. rewrite write_parquet_overwrite. cbn.
  destruct (time_table eng log_df) as [tt|]; cbn;
    [|split; [done|by intros (? & ? & ? & _)]].
  rewrite write_parquet_overwrite. cbn.
  destruct (songplays eng song_df log_df) as [sp|]; cbn;
    [|split; [done|by intros (? & ? & _ & ? & _)]].
  rewrite write_parquet_overwrite. split.
  - intros [= <-]. by exists tt, sp.
  - by intros (? & ? & [= <-] & [= <-] & ->).
Qed.

(** The identifiers never reach the fact table: it is the same however the
    engine cuts the joined dataframe into partitions. *)
Lemma songplays_with_partitions (n : Z) (eng : Engine) (song_df : list Song.t)
    (log_df : list Log.t) :
  songplays (with_partitions n eng) song_df log_df = songplays eng song_df log_df.
Proof.
  unfold songplays, joined.
  change (withColumn_timestamp (with_partitions n eng))
    with (withColumn_timestamp eng).
  destruct (withColumn_timestamp eng _) as [df|]; [|done].
  cbn. by rewrite !songplays_select_id.
Qed.

Ltac distinct_destinations P :=
  let Hnd := fresh "Hnd" in
  pose proof (destinations_NoDup P) as Hnd;
  unfold destinations in Hnd;
  repeat (apply NoDup_cons in Hnd as [? Hnd]);
  repeat match goal with
         | H : _ ∉ _ :: _ |- _ => apply not_elem_of_cons in H as [? H]
         end.

(** C8. Every write replaces what the destination held: after a run, each
    of the five destinations holds the table of this run and nothing else,
    whatever it held before, partitioned by (year, artist_id) for songs,
    by nothing for artists and users, by (year, month) for time and
    songplays; no other destination changes. *)
Theorem C8_overwrite_and_partition_columns (eng : Engine) (song_df : list Song.t)
    (log_df : list Log.t) (P : string) (store store1 store2 : gmap string (list Files)) :
  process_song_data song_df P store = Ok store1 →
  process_log_data eng song_df log_df P store1 = Ok store2 →
  ∃ tt sp,
    time_table eng log_df = Ok tt ∧ songplays eng song_df log_df = Ok sp ∧
    store2 !! songs_out_path P
    = Some [{| partitionBy := ["year"; "artist_id"];
               content := SongsT (songs_table song_df) |}] ∧
    store2 !! artists_out_path P
    = Some [{| partitionBy := []; content := ArtistsT (artists_table song_df) |}] ∧
    store2 !! users_out_path P
    = Some [{| partitionBy := []; content := UsersT (users_table log_df) |}] ∧
    store2 !! time_out_path P
    = Some [{| partitionBy := ["year"; "month"]; content := TimeT tt |}] ∧
    store2 !! songplays_out_path P
    = Some [{| partitionBy := ["year"; "month"]; content := SongplaysT sp |}] ∧
    (∀ p, p ∉ destinations P → store2 !! p = store !! p).
Proof.
  rewrite process_song_data_Ok. intros [= <-].
  intros (tt & sp & Htt & Hsp & ->)%process_log_data_Ok.
  exists tt, sp. split; [done|]. split; [done|].
  distinct_destinations P.
  repeat split; [by simplify_map_eq..|].
  intros p Hp. unfold destinations in Hp.
  repeat (apply not_elem_of_cons in Hp as [? Hp]).
  by simplify_map_eq.
Qed.

Lemma C8_overwrite_and_partition_columns_witness :
  let old := {[ "out/songs/songs.parquet" := [{| partitionBy := []; content := UsersT [] |}] ]} in
  ∃ store1 store2,
    process_song_data [row_S1] "out/" old = Ok store1 ∧
    process_log_data utc_engine [row_S1] [row_U1 "NextSong"] "out/" store1 = Ok store2 ∧
    store2 !! songs_out_path "out/"
    = Some [{| partitionBy := ["year"; "artist_id"];
               content := SongsT (songs_table [row_S1]) |}] ∧
    store2 !! songplays_out_path "out/"
    = Some [{| partitionBy := ["year"; "month"]; content := SongplaysT [songplay_U1] |}].
Proof.
  intros old.
  pose proof (process_song_data_Ok [row_S1] "out/" old) as H1.
  eassert (H2 : process_log_data utc_engine [row_S1] [row_U1 "NextSong"] "out/" _ = Ok _).
  { apply process_log_data_Ok. exists [time_U1], [songplay_U1].
    split; [reflexivity|]. split; reflexivity. }
  destruct (C8_overwrite_and_partition_columns _ _ _ _ _ _ _ H1 H2)
    as (tt & sp & Htt & Hsp & Hsongs & _ & _ & _ & Hplays & _).
  eexists _, _. split; [exact H1|]. split; [exact H2|]. split; [exact Hsongs|].
  rewrite Hplays. injection Hsp as <-. reflexivity.
Defined.

(** ** Running [main] *)

Lemma mapM_option_ext {A B} (f g : A → option B) (l : list A) :
  (∀ x, f x = g x) → mapM f l = mapM g l.
Proof.
  intros H. induction l as [|x l IH]; [done|].
  change (f x ≫= (λ y, mapM f l ≫= λ k, mret (y :: k))
          = g x ≫= (λ y, mapM g l ≫= λ k, mret (y :: k))).
  by rewrite H, IH.
Qed.

Lemma read_json_with_partitions (n : Z) (eng : Engine) (mode : ParseMode)
    (schema : StructType) (rs : list record) :
  read_json (with_partitions n eng) mode schema rs = read_json eng mode schema rs.
Proof.
  unfold read_json. generalize (asNullable schema). clear schema. intros schema.
  assert (Hc : ∀ r, convert_record (with_partitions n eng) schema r
                    = convert_record eng schema r).
  { intros r. apply mapM_option_ext. intros f. unfold convert_field.
    destruct (r !! field_name f) as [j|]; [|done].
    by destruct j, (field_type f). }
  induction rs as [|r rs IH]; [done|].
  cbn. unfold parse_record. rewrite Hc, IH. done.
Qed.

Lemma main_with_partitions (n : Z) (eng : Engine) (sources : string → list record)
    (store : gmap string (list Files)) :
  main (with_partitions n eng) sources store = main eng sources store.
Proof.
  unfold main, create_song_df, create_log_df.
  rewrite !read_json_with_partitions.
  fold (create_song_df eng (sources song_files)).
  fold (create_log_df eng (sources log_files)).
  destruct (create_song_df eng _) as [song_df|]; [|done].
  destruct (create_log_df eng _) as [log_df|]; [|done].
  cbn. destruct (process_song_data song_df output_path store) as [store1|]; [|done].
  cbn. unfold process_log_data.
  change (time_table (with_partitions n eng)) with (time_table eng).
  by rewrite songplays_with_partitions.
Qed.

Lemma main_Ok (eng : Engine) (sources : string → list record)
    (store store' : gmap string (list Files)) :
  main eng sources store = Ok store' ↔
  ∃ song_df log_df tt sp,
    create_song_df eng (sources song_files) = Ok song_df ∧
    create_log_df eng (sources log_files) = Ok log_df ∧
    time_table eng log_df = Ok tt ∧ songplays eng song_df log_df = Ok sp ∧
    store' =
      <[songplays_out_path output_path :=
          [{| partitionBy := ["year"; "month"]; content := SongplaysT sp |}]]>
      (<[time_out_path output_path :=
          [{| partitionBy := ["year"; "month"]; content := TimeT tt |}]]>
       (<[users_out_path output_path :=
          [{| partitionBy := []; content := UsersT (users_table log_df) |}]]>
        (<[artists_out_path output_path :=
            [{| partitionBy := []; content := ArtistsT (artists_table song_df) |}]]>
         (<[songs_out_path output_path :=
            [{| partitionBy := ["year"; "artist_id"];
                content := SongsT (songs_table song_df) |}]]> store)))).
Proof.
  unfold main. split.
  - intros (song_df & Hs & H)%bind_Ok. apply bind_Ok in H as (log_df & Hl & H).
    apply bind_Ok in H as (store1 & H1 & H).
    rewrite process_song_data_Ok in H1. injection H1 as <-.
    apply process_log_data_Ok in H as (tt & sp & Htt & Hsp & ->).
    by exists song_df, log_df, tt, sp.
  - intros (song_df & log_df & tt & sp & -> & -> & Htt & Hsp & ->). cbn.
    rewrite process_song_data_Ok. cbn. apply process_log_data_Ok. eauto.
Qed.



(** ** Where [main] writes *)

(** With an output root that ends in a slash, the five destinations lie in
    the directories [songs/], [artists/], [users/], [time/] and
    [songplays/] of the root. *)
Lemma destinations_under_root (root : string) :
  destinations (root +:+ "/")
  = String.append (root +:+ "/") <$>
      ["songs/songs.parquet"; "artists/artists.parquet"; "users/users.parquet";
       "time/time.parquet"; "songplays/songplays.parquet"].
Proof.
  unfold destinations, songs_out_path, artists_out_path, users_out_path,
    time_out_path, songplays_out_path.
  by rewrite !(append_assoc (root +:+ "/")).
Qed.

Lemma main_destinations (eng : Engine) (sources : string → list record)
    (store store' : gmap string (list Files)) :
  main eng sources store = Ok store' →
  ∀ p, (p ∈ destinations output_path → is_Some (store' !! p)) ∧
       (p ∉ destinations output_path → store' !! p = store !! p).
Proof.
  intros (song_df & log_df & tt & sp & _ & _ & _ & _ & ->)%main_Ok p.
  unfold destinations. split.
  - rewrite !elem_of_cons, elem_of_nil.
    intros [->|[->|[->|[->|[->|[]]]]]];
      repeat (rewrite lookup_insert; case_decide; [done|]); done.
  - intros Hp. repeat (apply not_elem_of_cons in Hp as [? Hp]).
    by simplify_map_eq.
Qed.

Lemma destinations_of_main :
  destinations output_path
  = ["s3a://project4-alexsongs/songs.parquet";
     "s3a://project4-alexartists/artists.parquet";
     "s3a://project4-alexusers/users.parquet";
     "s3a://project4-alextime/time.parquet";
     "s3a://project4-alexsongplays/songplays.parquet"].
Proof. reflexivity. Qed.

(** C4 at the output root of [main]. The root has no final slash, so the
    five tables are written beside it, not in it: the destinations of the
    run are not under the root, and the run leaves everything under the
    root as it was. *)
Theorem C4_main_writes_beside_its_root (eng : Engine) (sources : string → list record)
    (store store' : gmap string (list Files)) :
  main eng sources store = Ok store' →
  (∀ p, p ∈ destinations output_path →
        is_Some (store' !! p) ∧ String.prefix (output_path +:+ "/") p = false) ∧
  (∀ p, String.prefix (output_path +:+ "/") p = true → store' !! p = store !! p).
Proof.
  intros Hm.
  assert (Hout : ∀ p, p ∈ destinations output_path →
                      String.prefix (output_path +:+ "/") p = false).
  { intros p. rewrite destinations_of_main, !elem_of_cons, elem_of_nil.
    by intros [->|[->|[->|[->|[->|[]]]]]]. }
  split.
  - intros p Hp. split; [|by apply Hout].
    by apply (main_destinations _ _ _ _ Hm).
  - intros p Hp. apply (main_destinations _ _ _ _ Hm).
    intros Hin. apply Hout in Hin. congruence.
Qed.

Lemma C4_main_writes_beside_its_root_witness :
  ∃ store',
    main utc_engine (scenario_sources [song_S1] [play_U1]) ∅ = Ok store' ∧
    is_Some (store' !! "s3a://project4-alexsongs/songs.parquet") ∧
    store' !! "s3a://project4-alex/songs/songs.parquet" = None.
Proof.
  eassert (Hm : main utc_engine (scenario_sources [song_S1] [play_U1]) ∅ = Ok _).
  { apply main_Ok. exists [row_S1], [row_U1 "NextSong"], [time_U1], [songplay_U1].
    split; [reflexivity|]. split; [reflexivity|].
    split; [reflexivity|]. split; reflexivity. }
  destruct (C4_main_writes_beside_its_root _ _ _ _ Hm) as [Hin Hout].
  eexists. split; [exact Hm|]. split.
  - apply (Hin "s3a://project4-alexsongs/songs.parquet"). by left.
  - rewrite (Hout "s3a://project4-alex/songs/songs.parquet"); reflexivity.
Defined.

(** ** The surrogate key *)

(** The identifiers the engine hands out are distinct, as long as a
    partition has at most 2^33 rows and there are at most 2^30 partitions. *)
Lemma monotonically_increasing_id_inj (eng : Engine) (i j : nat) :
  0 < rows_per_partition eng ≤ 2 ^ 33 →
  Z.of_nat i < 2 ^ 30 * rows_per_partition eng →
  Z.of_nat j < 2 ^ 30 * rows_per_partition eng →
  monotonically_increasing_id eng i = monotonically_increasing_id eng j → i = j.
Proof.
  unfold monotonically_increasing_id, wrap64. cbv zeta.
  generalize (rows_per_partition eng). intros n Hn Hi Hj.
  rewrite !Z.shiftl_mul_pow2 by lia.
  assert (Hq : ∀ k, 0 ≤ k < 2 ^ 30 * n → 0 ≤ k / n < 2 ^ 30 ∧ 0 ≤ k mod n < n).
  { intros k Hk. split; [|apply Z.mod_pos_bound; lia].
    split; [apply Z.div_pos; lia|]. apply Z.div_lt_upper_bound; lia. }
  destruct (Hq (Z.of_nat i)) as [Hqi Hri]; [lia|].
  destruct (Hq (Z.of_nat j)) as [Hqj Hrj]; [lia|].
  pose proof (Z.div_mod (Z.of_nat i) n) as Hdi.
  pose proof (Z.div_mod (Z.of_nat j) n) as Hdj.
  generalize dependent (Z.of_nat i / n). generalize dependent (Z.of_nat i mod n).
  generalize dependent (Z.of_nat j / n). generalize dependent (Z.of_nat j mod n).
  intros rj Hrj qj Hqj Hdj ri Hri qi Hqi Hdi.
  rewrite !Z.mod_small by lia. intros Heq.
  assert (qi = qj) by lia. subst qj. assert (ri = rj) by lia. subst rj.
  apply Nat2Z.inj. rewrite Hdi, Hdj by lia. done.
Qed.

Lemma songplay_ids_distinct (eng : Engine) (song_df : list Song.t) (log_df : list Log.t)
    (df : list (Log.t * Z * Song.t * Z)) :
  0 < rows_per_partition eng ≤ 2 ^ 33 →
  joined eng song_df log_df = Ok df →
  Z.of_nat (length df) ≤ 2 ^ 30 * rows_per_partition eng →
  NoDup (songplay_id <$> df).
Proof.
  intros Hn (ts & _ & [= <-])%bind_Ok Hlen.
  unfold withColumn_id in *. rewrite length_imap in Hlen.
  apply NoDup_alt. intros i j id.
  rewrite !list_lookup_fmap, !list_lookup_imap.
  destruct (join join_cond ts song_df !! i) as [x|] eqn:Hi; [|done].
  destruct (join join_cond ts song_df !! j) as [y|] eqn:Hj; [|done].
  apply lookup_lt_Some in Hi, Hj. simpl. intros [= <-] [= Heq].
  apply (monotonically_increasing_id_inj eng); [done|lia|lia|done].
Qed.

(** C1 against the code. The joined dataframe gets its [songplay_id]
    column, with distinct values, but the [select] that makes the fact
    table leaves the column out: the table written has no [songplay_id],
    and two plays that differ in nothing else are written as two equal
    rows. *)
Theorem C1_songplay_id_is_not_written :
  let log_df := [row_U1 "NextSong"; row_U1 "NextSong"] in
  (∃ df, joined utc_engine [row_S1] log_df = Ok df ∧ songplay_id <$> df = [0; 1]) ∧
  songplays utc_engine [row_S1] log_df = Ok [songplay_U1; songplay_U1] ∧
  (∃ store',
     main utc_engine (scenario_sources [song_S1] [play_U1; play_U1]) ∅ = Ok store' ∧
     store' !! songplays_out_path output_path
     = Some [{| partitionBy := ["year"; "month"];
                content := SongplaysT [songplay_U1; songplay_U1] |}]) ∧
  (∀ rows, "songplay_id" ∉ columns (SongplaysT rows)).
Proof.
  intros log_df. split; [|split; [|split]].
  - eexists. split; reflexivity.
  - reflexivity.
  - eexists. split.
    + apply main_Ok.
      exists [row_S1], log_df, [time_U1], [songplay_U1; songplay_U1].
      split; [reflexivity|]. split; [reflexivity|].
      split; [reflexivity|]. split; reflexivity.
    + by rewrite lookup_insert_eq.
  - intros rows. simpl. unfold songplays_fields.
    rewrite !elem_of_cons, elem_of_nil. naive_solver.
Qed.

(** ** The time zone *)

Lemma withColumn_timestamp_utcoffset (eng1 eng2 : Engine) (df : list Log.t) :
  (∀ s, utcoffset eng1 s = utcoffset eng2 s) →
  withColumn_timestamp eng1 df = withColumn_timestamp eng2 df.
Proof.
  intros Hoff. unfold withColumn_timestamp.
  induction df as [|e df IH]; [done|].
  change (mapM ?f (e :: df)) with (f e ≫= λ y, mapM f df ≫= λ k, mret (y :: k)).
  rewrite IH. f_equal.
  destruct (Log.ts e) as [ms|]; [|done].
  unfold get_timestamp, fromtimestamp. by rewrite Hoff.
Qed.

(** C10. The rows of [time] and [songplays] are a function of the local
    offset from UTC besides the log: engines with one offset give the same
    tables, and the one play of the scenario is written with another
    [start_time], hour and day on a clock seven hours behind UTC. *)
Theorem C10_rows_depend_on_the_time_zone :
  (∀ eng1 eng2 song_df log_df,
     (∀ s, utcoffset eng1 s = utcoffset eng2 s) →
     time_table eng1 log_df = time_table eng2 log_df ∧
     songplays eng1 song_df log_df = songplays eng2 song_df log_df) ∧
  time_table utc_engine [row_U1 "NextSong"] = Ok [time_U1] ∧
  time_table pacific_engine [row_U1 "NextSong"] = Ok [time_U1_pacific] ∧
  Time.start_time time_U1 ≠ Time.start_time time_U1_pacific ∧
  Time.hour time_U1 ≠ Time.hour time_U1_pacific ∧
  Time.day time_U1 ≠ Time.day time_U1_pacific ∧
  songplays utc_engine [row_S1] [row_U1 "NextSong"] = Ok [songplay_U1] ∧
  (∃ p, songplays pacific_engine [row_S1] [row_U1 "NextSong"] = Ok [p] ∧
        Songplays.start_time p ≠ Songplays.start_time songplay_U1).
Proof.
  split.
  - intros eng1 eng2 song_df log_df Hoff.
    pose proof (withColumn_timestamp_utcoffset eng1 eng2
                  (df_filter is_next_song log_df) Hoff) as Hts.
    unfold time_table, songplays, joined. rewrite Hts. split; [done|].
    destruct (withColumn_timestamp eng2 _) as [df|]; [|done].
    cbn. by rewrite !songplays_select_id.
  - repeat split; try reflexivity; try done.
    eexists. split; [reflexivity|done].
Qed.

(** * Further properties of the pipeline *)

(** ** The users table *)

(** X1. The [users] table has at most one row per [userId], and the
    [userId] of every NextSong event is the key of one of its rows. *)
Theorem X1_users_dimension_keys (log_df : list Log.t) :
  NoDup (Users.userId <$> users_table log_df) ∧
  ∀ e, e ∈ log_df → Log.page e = Some "NextSong" →
       Log.userId e ∈ Users.userId <$> users_table log_df.
Proof.
  unfold users_table. split; [apply dropDuplicates_NoDup|].
  intros e He Hp. apply dropDuplicates_keys. rewrite <- list_fmap_compose.
  apply (list_elem_of_fmap_2 _ _ e), elem_of_df_filter.
  by rewrite is_next_song_true.
Qed.

(** ** The rows of the song dimensions *)

Lemma length_dropDuplicates `{EqDecision K} {A} (key : A → K) (df : list A) :
  (length (dropDuplicates key df) ≤ length df)%nat.
Proof.
  induction df as [|x df IH]; simpl; [done|].
  pose proof (length_filter (λ y, key y ≠ key x) (dropDuplicates key df)). lia.
Qed.

(** X2. Every row of [songs] and of [artists] is the projection of a song
    record of the input (with the artist columns renamed), and neither
    table has more rows than the input has records. *)
Theorem X2_song_dimension_rows (song_df : list Song.t) :
  (∀ r, r ∈ songs_table song_df → ∃ s, s ∈ song_df ∧ r = songs_select s) ∧
  (∀ a, a ∈ artists_table song_df → ∃ s, s ∈ song_df ∧ a = artists_select s) ∧
  (length (songs_table song_df) ≤ length song_df)%nat ∧
  (length (artists_table song_df) ≤ length song_df)%nat.
Proof.
  unfold songs_table, artists_table. repeat split.
  - intros r Hr%dropDuplicates_subset.
    apply list_elem_of_fmap in Hr as (s & -> & Hs). eauto.
  - intros a Ha%dropDuplicates_subset.
    apply list_elem_of_fmap in Ha as (s & -> & Hs). eauto.
  - etrans; [apply length_dropDuplicates|]. by rewrite length_fmap.
  - etrans; [apply length_dropDuplicates|]. by rewrite length_fmap.
Qed.

(** ** When the log run fails *)

Lemma withColumn_timestamp_Err (eng : Engine) (df : list Log.t) (err : error) :
  withColumn_timestamp eng df = Err err →
  ∃ e, e ∈ df ∧ get_timestamp eng (Log.ts e) = Err err.
Proof.
  unfold withColumn_timestamp. induction df as [|e df IH]; [done|].
  change (mapM ?f (e :: df)) with (f e ≫= λ y, mapM f df ≫= λ k, mret (y :: k)).
  destruct (get_timestamp eng (Log.ts e)) as [w|err'] eqn:Hw; rewrite Hw; cbn.
  - destruct (mapM _ df) as [l|err'] eqn:Hl; cbn; [by intros [=]|].
    intros [= ->]. destruct IH as (e' & ? & ?); [done|].
    exists e'. split; [by right|done].
  - intros [= ->]. exists e. split; [by left|done].
Qed.

Lemma withColumn_timestamp_is_Ok (eng : Engine) (df : list Log.t) :
  (∃ l, withColumn_timestamp eng df = Ok l) ↔
  ∀ e, e ∈ df → ∃ w, get_timestamp eng (Log.ts e) = Ok w.
Proof.
  split; [|apply withColumn_timestamp_total].
  intros [l Hl] e He.
  assert (Hin : e ∈ l.*1) by by rewrite (withColumn_timestamp_fst _ _ _ Hl).
  apply list_elem_of_fmap in Hin as ([e' w] & -> & Hr).
  exists w. by destruct (elem_of_withColumn_timestamp _ _ _ _ Hl Hr).
Qed.




(** ** The fact table and its dimensions *)

Lemma songplays_event_rows (eng : Engine) (song_df : list Song.t) (log_df : list Log.t)
    (sp : list Songplays.t) :
  songplays eng song_df log_df = Ok sp → sp = log_df ≫= event_rows eng song_df.
Proof.
  unfold songplays, joined.
  intros (j & (df & Hdf & [= <-])%bind_Ok & [= <-])%bind_Ok.
  rewrite songplays_select_id, fmap_join. by apply bind_event_rows.
Qed.

(** X5. The keys of a fact row are keys of the dimension tables of the same
    run: its [song_id] of a [songs] row, its [artist_id] of an [artists]
    row, its [userId] of a [users] row, and its [start_time] of a [time]
    row, which has the same year and month. *)
Theorem X5_songplays_keys_resolve (eng : Engine) (song_df : list Song.t)
    (log_df : list Log.t) (tt : list Time.t) (sp : list Songplays.t) :
  time_table eng log_df = Ok tt →
  songplays eng song_df log_df = Ok sp →
  ∀ p, p ∈ sp →
    Songplays.song_id p ∈ Songs.song_id <$> songs_table song_df ∧
    Songplays.artist_id p ∈ Artists.artist_id <$> artists_table song_df ∧
    Songplays.userId p ∈ Users.userId <$> users_table log_df ∧
    ∃ t, t ∈ tt ∧ Time.start_time t = Songplays.start_time p ∧
         Time.year t = Songplays.year p ∧ Time.month t = Songplays.month p.
Proof.
  intros Htt Hsp p Hp.
  destruct (songplays_from _ _ _ _ _ Hsp Hp)
    as (e & w & s & id & He & Hpage & Hs & Hw & _ & ->).
  unfold songs_table, artists_table, users_table. simpl.
  split; [|split; [|split]].
  - apply dropDuplicates_keys. rewrite <- list_fmap_compose.
    by apply (list_elem_of_fmap_2 _ _ s).
  - apply dropDuplicates_keys. rewrite <- list_fmap_compose.
    by apply (list_elem_of_fmap_2 _ _ s).
  - apply dropDuplicates_keys. rewrite <- list_fmap_compose.
    apply (list_elem_of_fmap_2 _ _ e), elem_of_df_filter.
    by rewrite is_next_song_true.
  - apply bind_Ok in Htt as (df & Hdf & [= <-]).
    assert (Hin : e ∈ df.*1).
    { rewrite (withColumn_timestamp_fst _ _ _ Hdf).
      apply elem_of_df_filter. by rewrite is_next_song_true. }
    apply list_elem_of_fmap in Hin as ([e' w'] & -> & Hr).
    destruct (elem_of_withColumn_timestamp _ _ _ _ Hdf Hr) as [_ Hw'].
    simpl in Hw, Hw'. rewrite Hw in Hw'. injection Hw' as <-.
    assert (Hk : w ∈ Time.start_time <$>
                       dropDuplicates Time.start_time (time_select <$> df)).
    { apply dropDuplicates_keys. rewrite <- list_fmap_compose.
      by apply (list_elem_of_fmap_2' _ _ (e', w)). }
    apply list_elem_of_fmap in Hk as (t & Ht & Hin).
    exists t. split; [done|]. split; [done|].
    apply dropDuplicates_subset, list_elem_of_fmap in Hin as ([e'' w''] & -> & _).
    simpl in Ht. by subst w''.
Qed.

Lemma X5_songplays_keys_resolve_witness :
  time_table utc_engine [row_U1 "NextSong"; row_U1 "Home"] = Ok [time_U1] ∧
  songplays utc_engine [row_S1; row_S2] [row_U1 "NextSong"; row_U1 "Home"]
  = Ok [songplay_of "S1"; songplay_of "S2"] ∧
  Songplays.song_id (songplay_of "S2") ∈ Songs.song_id <$> songs_table [row_S1; row_S2].
Proof.
  split; [reflexivity|]. split; [reflexivity|].
  apply (X5_songplays_keys_resolve utc_engine [row_S1; row_S2]
           [row_U1 "NextSong"; row_U1 "Home"] [time_U1]
           [songplay_of "S1"; songplay_of "S2"] eq_refl eq_refl).
  right. left.
Defined.

(** ** One row for a play *)

Lemma length_filter_same_key `{EqDecision K} {A} (key : A → K) (P : A → Prop)
    `{∀ x, Decision (P x)} (k : K) (l : list A) :
  NoDup (key <$> l) → (∀ x, x ∈ l → P x → key x = k) →
  (length (filter P l) ≤ 1)%nat.
Proof.
  induction l as [|x l IH]; [intros; simpl; lia|]. rewrite fmap_cons, NoDup_cons.
  intros [Hx Hl] Hk. rewrite filter_cons. case_decide as HP.
  - assert (Hnil : filter P l = []).
    { destruct (filter P l) as [|y k'] eqn:Hf; [done|]. exfalso.
      assert (Hy : y ∈ filter P l) by (rewrite Hf; left).
      apply list_elem_of_filter in Hy as [HPy Hy]. apply Hx.
      rewrite (Hk x) by (done || by left). rewrite <- (Hk y) by (done || by right).
      by apply list_elem_of_fmap_2. }
    by rewrite Hnil.
  - apply IH; [done|]. intros y Hy. apply Hk. by right.
Qed.

(** X6. When no two song records have the same title and artist name, a
    play has at most one row in [songplays]: the table has no more rows
    than the log has NextSong events. *)
Theorem X6_one_row_when_titles_are_unique (eng : Engine) (song_df : list Song.t)
    (log_df : list Log.t) (sp : list Songplays.t) :
  NoDup ((λ s, (Song.title s, Song.artist_name s)) <$> song_df) →
  songplays eng song_df log_df = Ok sp →
  (∀ e, length (event_rows eng song_df e) ≤ 1)%nat ∧
  (length sp ≤ length (df_filter is_next_song log_df))%nat.
Proof.
  intros Hnd Hsp.
  assert (Hone : ∀ e, (length (df_filter (song_matches e) song_df) ≤ 1)%nat).
  { intros e. unfold df_filter.
    apply (length_filter_same_key (λ s, (Song.title s, Song.artist_name s)) _
             (Log.song e, Log.artist e)); [done|].
    intros s _ Hm. change (join_cond (e, 0) s = Some true) in Hm.
    apply join_cond_true in Hm as [(t & -> & Ht) (a & -> & Ha)].
    simpl in Ht, Ha. by rewrite Ht, Ha. }
  assert (Hrows : ∀ e, (length (event_rows eng song_df e)
                        ≤ if decide (is_next_song e = Some true) then 1 else 0)%nat).
  { intros e. unfold event_rows. case_decide as Hp.
    - rewrite Hp. destruct (get_timestamp eng (Log.ts e)); simpl; [|lia].
      rewrite length_fmap. apply Hone.
    - destruct (is_next_song e) as [[]|]; simpl; [done|lia..]. }
  split.
  - intros e. specialize (Hrows e). case_decide; lia.
  - rewrite (songplays_event_rows _ _ _ _ Hsp). clear Hsp.
    unfold df_filter. induction log_df as [|e log_df IH]; [done|].
    cbn [mbind list_bind]. rewrite length_app, filter_cons.
    specialize (Hrows e). case_decide; simpl; lia.
Qed.

Lemma X6_one_row_when_titles_are_unique_witness :
  NoDup ((λ s, (Song.title s, Song.artist_name s)) <$> [row_S1]) ∧
  songplays utc_engine [row_S1] [row_U1 "NextSong"; row_U1 "NextSong"; row_U1 "Home"]
  = Ok [songplay_U1; songplay_U1] ∧
  (length [songplay_U1; songplay_U1]
   ≤ length (df_filter is_next_song
               [row_U1 "NextSong"; row_U1 "NextSong"; row_U1 "Home"]))%nat.
Proof.
  assert (Hnd : NoDup ((λ s, (Song.title s, Song.artist_name s)) <$> [row_S1])).
  { apply NoDup_singleton. }
  split; [exact Hnd|]. split; [reflexivity|].
  apply (X6_one_row_when_titles_are_unique utc_engine [row_S1]
           [row_U1 "NextSong"; row_U1 "NextSong"; row_U1 "Home"]
           [songplay_U1; songplay_U1] Hnd eq_refl).
Defined.

(** ** NULL in the join columns *)

Lemma filter_none {A} (P : A → Prop) `{∀ x, Decision (P x)} (l : list A) :
  (∀ x, x ∈ l → ¬ P x) → filter P l = [].
Proof.
  induction l as [|x l IH]; [done|]. intros Hl. rewrite filter_cons.
  case_decide as HP; [by destruct (Hl x); [left|]|].
  apply IH. intros y Hy. apply Hl. by right.
Qed.

Lemma filter_filter_implied {A} (P Q : A → Prop) `{∀ x, Decision (P x)}
    `{∀ x, Decision (Q x)} (l : list A) :
  (∀ x, P x → Q x) → filter P (filter Q l) = filter P l.
Proof.
  intros HPQ. induction l as [|x l IH]; [done|]. rewrite !filter_cons.
  destruct (decide (Q x)) as [HQ|HQ].
  - rewrite filter_cons. by rewrite IH.
  - rewrite IH. case_decide as HP; [by destruct HQ; apply HPQ|done].
Qed.

Lemma song_matches_not_null (e : Log.t) (s : Song.t) :
  song_matches e s = Some true →
  (is_Some (Log.song e) ∧ is_Some (Log.artist e)) ∧
  (is_Some (Song.title s) ∧ is_Some (Song.artist_name s)).
Proof.
  intros Hm. change (join_cond (e, 0) s = Some true) in Hm.
  apply join_cond_true in Hm as [(t & -> & Ht) (a & -> & Ha)].
  simpl in Ht, Ha. rewrite Ht, Ha. eauto.
Qed.

Lemma songplays_of_event_rows (eng : Engine) (song_df : list Song.t)
    (log_df : list Log.t) (df : list (Log.t * Z)) :
  withColumn_timestamp eng (df_filter is_next_song log_df) = Ok df →
  songplays eng song_df log_df = Ok (log_df ≫= event_rows eng song_df).
Proof.
  intros Hdf. unfold songplays, joined. rewrite Hdf. cbn. f_equal.
  rewrite songplays_select_id, fmap_join. by apply bind_event_rows.
Qed.

(** X7. NULL matches nothing in the join: the fact table is the same
    without the log events whose [song] or [artist] is NULL, and the same
    without the song records whose [title] or [artist_name] is NULL. *)
Theorem X7_null_matches_nothing (eng : Engine) (song_df : list Song.t)
    (log_df : list Log.t) (sp : list Songplays.t) :
  songplays eng song_df log_df = Ok sp →
  songplays eng song_df
    (filter (λ e, is_Some (Log.song e) ∧ is_Some (Log.artist e)) log_df) = Ok sp ∧
  songplays eng
    (filter (λ s, is_Some (Song.title s) ∧ is_Some (Song.artist_name s)) song_df)
    log_df = Ok sp.
Proof.
  intros Hsp. pose proof (songplays_event_rows _ _ _ _ Hsp) as ->.
  unfold songplays, joined in Hsp.
  apply bind_Ok in Hsp as (j & (df & Hdf & _)%bind_Ok & _).
  split.
  - set (log_df' := filter _ log_df).
    destruct (withColumn_timestamp_total eng (df_filter is_next_song log_df'))
      as [df' Hdf'].
    { intros e [Hp [_ He]%list_elem_of_filter]%elem_of_df_filter.
      apply (proj1 (withColumn_timestamp_is_Ok eng _) (ex_intro _ df Hdf)).
      by apply elem_of_df_filter. }
    rewrite (songplays_of_event_rows _ _ _ _ Hdf'). f_equal.
    subst log_df'. clear. induction log_df as [|e log_df IH]; [done|].
    rewrite filter_cons. cbn [mbind list_bind]. case_decide as Hnn.
    + cbn [mbind list_bind]. by rewrite IH.
    + rewrite IH. replace (event_rows eng song_df e) with (@nil Songplays.t); [done|].
      unfold event_rows.
      destruct (is_next_song e) as [[]|]; [|done..].
      destruct (get_timestamp eng (Log.ts e)); [|done].
      unfold df_filter. rewrite filter_none; [done|].
      intros s _ Hm%song_matches_not_null. tauto.
  - rewrite (songplays_of_event_rows _ _ _ _ Hdf). f_equal.
    induction log_df as [|e log_df' IH] in |- *; [done|].
    cbn [mbind list_bind]. rewrite IH. f_equal.
    unfold event_rows.
    destruct (is_next_song e) as [[]|]; [|done..].
    destruct (get_timestamp eng (Log.ts e)); [|done].
    unfold df_filter. rewrite filter_filter_implied; [done|].
    intros s Hm%song_matches_not_null. tauto.
Qed.

Lemma X7_null_matches_nothing_witness :
  songplays utc_engine [row_S1; song_of_row (null_row song_schema)]
    [row_U1 "NextSong"] = Ok [songplay_U1] ∧
  songplays utc_engine
    (filter (λ s, is_Some (Song.title s) ∧ is_Some (Song.artist_name s))
       [row_S1; song_of_row (null_row song_schema)])
    [row_U1 "NextSong"] = Ok [songplay_U1].
Proof.
  split; [reflexivity|].
  apply (X7_null_matches_nothing utc_engine
           [row_S1; song_of_row (null_row song_schema)] [row_U1 "NextSong"]
           [songplay_U1] eq_refl).
Defined.

(** ** The identifiers in memory *)

Lemma monotonically_increasing_id_lt (eng : Engine) (i j : nat) :
  0 < rows_per_partition eng ≤ 2 ^ 33 →
  Z.of_nat j < 2 ^ 30 * rows_per_partition eng →
  (i < j)%nat →
  0 ≤ monotonically_increasing_id eng i < monotonically_increasing_id eng j.
Proof.
  unfold monotonically_increasing_id, wrap64. cbv zeta.
  generalize (rows_per_partition eng). intros n Hn Hj Hij.
  rewrite !Z.shiftl_mul_pow2 by lia.
  assert (Hq : ∀ k, 0 ≤ k < 2 ^ 30 * n → 0 ≤ k / n < 2 ^ 30 ∧ 0 ≤ k mod n < n).
  { intros k Hk. split; [|apply Z.mod_pos_bound; lia].
    split; [apply Z.div_pos; lia|]. apply Z.div_lt_upper_bound; lia. }
  destruct (Hq (Z.of_nat i)) as [Hqi Hri]; [lia|].
  destruct (Hq (Z.of_nat j)) as [Hqj Hrj]; [lia|].
  pose proof (Z.div_mod (Z.of_nat i) n) as Hdi.
  pose proof (Z.div_mod (Z.of_nat j) n) as Hdj.
  assert (Hle : Z.of_nat i / n ≤ Z.of_nat j / n) by (apply Z.div_le_mono; lia).
  generalize dependent (Z.of_nat i / n). generalize dependent (Z.of_nat i mod n).
  generalize dependent (Z.of_nat j / n). generalize dependent (Z.of_nat j mod n).
  intros rj Hrj qj Hqj Hdj ri Hri qi Hqi Hdi Hle.
  rewrite !Z.mod_small by lia.
  destruct (decide (qi = qj)) as [->|Hne]; [lia|].
  assert (qi + 1 ≤ qj) by lia. nia.
Qed.

(** X8. In the joined dataframe the [songplay_id] values are not negative
    and grow with the position of the row, so that no two rows share one,
    as long as partitions hold at most 2^33 rows and the dataframe fits in
    2^30 of them. *)
Theorem X8_songplay_ids_increase (eng : Engine) (song_df : list Song.t)
    (log_df : list Log.t) (df : list (Log.t * Z * Song.t * Z)) :
  0 < rows_per_partition eng ≤ 2 ^ 33 →
  joined eng song_df log_df = Ok df →
  Z.of_nat (length df) ≤ 2 ^ 30 * rows_per_partition eng →
  ∀ i j a b, df !! i = Some a → df !! j = Some b → (i < j)%nat →
             0 ≤ songplay_id a < songplay_id b.
Proof.
  intros Hn (ts & _ & [= <-])%bind_Ok Hlen i j a b.
  unfold withColumn_id in *. rewrite length_imap in Hlen.
  rewrite !list_lookup_imap.
  destruct (join join_cond ts song_df !! i) as [x|] eqn:Hi; [|done].
  destruct (join join_cond ts song_df !! j) as [y|] eqn:Hj; [|done].
  apply lookup_lt_Some in Hj. simpl. intros [= <-] [= <-] Hij.
  apply (monotonically_increasing_id_lt eng); [done|lia|done].
Qed.

Lemma X8_songplay_ids_increase_witness :
  0 < rows_per_partition (with_partitions 1 utc_engine) ≤ 2 ^ 33 ∧
  joined (with_partitions 1 utc_engine) [row_S1; row_S2] [row_U1 "NextSong"]
  = Ok [(row_U1 "NextSong", 1541121934796000, row_S1, 0);
        (row_U1 "NextSong", 1541121934796000, row_S2, 8589934592)] ∧
  0 ≤ songplay_id (row_U1 "NextSong", 1541121934796000, row_S1, 0)
    < songplay_id (row_U1 "NextSong", 1541121934796000, row_S2, 8589934592).
Proof.
  assert (Hn : 0 < rows_per_partition (with_partitions 1 utc_engine) ≤ 2 ^ 33)
    by (simpl; lia).
  split; [exact Hn|]. split; [reflexivity|].
  apply (X8_songplay_ids_increase (with_partitions 1 utc_engine)
           [row_S1; row_S2] [row_U1 "NextSong"]
           [(row_U1 "NextSong", 1541121934796000, row_S1, 0);
            (row_U1 "NextSong", 1541121934796000, row_S2, 8589934592)]
           Hn eq_refl) with (i := 0%nat) (j := 1%nat);
    [simpl; lia|reflexivity|reflexivity|lia].
Defined.

(** ** What the readers keep of a record *)

Lemma convert_record_insert_unknown (eng : Engine) (schema : StructType) (k : string)
    (j : json) (r : record) :
  k ∉ field_name <$> schema →
  convert_record eng schema (<[k := j]> r) = convert_record eng schema r.
Proof.
  unfold convert_record. induction schema as [|f schema IH]; [done|].
  rewrite fmap_cons, not_elem_of_cons. intros [Hk Hs].
  change (convert_field eng (<[k := j]> r) f
          ≫= (λ y, mapM (convert_field eng (<[k := j]> r)) schema
                   ≫= λ l, mret (y :: l))
          = convert_field eng r f
            ≫= (λ y, mapM (convert_field eng r) schema ≫= λ l, mret (y :: l))).
  assert (Hf : convert_field eng (<[k := j]> r) f = convert_field eng r f).
  { unfold convert_field. by rewrite lookup_insert_ne. }
  by rewrite Hf, (IH Hs).
Qed.

Lemma field_name_asNullable (schema : StructType) :
  field_name <$> asNullable schema = field_name <$> schema.
Proof. unfold asNullable. by rewrite <- list_fmap_compose. Qed.

Lemma permissive_row_insert_unknown (eng : Engine) (schema : StructType) (k : string)
    (j : json) (r : record) :
  k ∉ field_name <$> schema →
  permissive_row eng schema (<[k := j]> r) = permissive_row eng schema r.
Proof.
  intros Hk. unfold permissive_row.
  rewrite convert_record_insert_unknown; [done|]. by rewrite field_name_asNullable.
Qed.

(** X9. A field of a record that the schema does not name is ignored: with
    or without it, the record is read as the same row, wherever it stands
    in the input. *)
Theorem X9_readers_ignore_unknown_fields (eng : Engine) (k : string) (j : json)
    (r : record) (before after : list record) :
  (k ∉ field_name <$> song_schema →
   create_song_df eng (before ++ <[k := j]> r :: after)
   = create_song_df eng (before ++ r :: after)) ∧
  (k ∉ field_name <$> log_schema →
   create_log_df eng (before ++ <[k := j]> r :: after)
   = create_log_df eng (before ++ r :: after)).
Proof.
  unfold create_song_df, create_log_df. rewrite !read_json_default.
  split; intros Hk; rewrite !fmap_app, !fmap_cons;
    by rewrite permissive_row_insert_unknown.
Qed.

Lemma X9_readers_ignore_unknown_fields_witness :
  create_song_df utc_engine ([] ++ <["num_songs" := JInt 1]> song_S1 :: [])
  = create_song_df utc_engine ([] ++ song_S1 :: []).
Proof.
  apply (X9_readers_ignore_unknown_fields utc_engine "num_songs" (JInt 1) song_S1 [] []).
  by apply (bool_decide_unpack _).
Defined.

Lemma has_bad_token_false (eng : Engine) (schema : StructType) (r : record) :
  has_bad_token eng schema r = false →
  ∃ cells, convert_record eng schema r = Some cells.
Proof.
  unfold has_bad_token, convert_record.
  induction schema as [|f schema IH]; [by exists []|].
  cbn [existsb]. intros [Hf Hs]%orb_false_elim.
  destruct (IH Hs) as [cells Hcells].
  change (mapM ?g (f :: schema)) with (g f ≫= λ y, mapM g schema ≫= λ l, mret (y :: l)).
  rewrite Hcells. unfold convert_field.
  destruct (r !! field_name f) as [j|]; [|by eexists].
  apply bool_decide_eq_false in Hf.
  destruct (convert eng (field_type f) j) as [c|]; [by eexists|done].
Qed.

Lemma has_bad_token_asNullable (eng : Engine) (schema : StructType) (r : record) :
  has_bad_token eng (asNullable schema) r = has_bad_token eng schema r.
Proof.
  unfold has_bad_token, asNullable.
  induction schema as [|f schema IH]; [done|]. cbn. by rewrite IH.
Qed.

(** The cell of the [i]th field of a record without a bad token. *)
Lemma permissive_row_lookup (eng : Engine) (schema : StructType) (r : record)
    (i : nat) (f : StructField) :
  has_bad_token eng schema r = false → schema !! i = Some f →
  permissive_row eng schema r !! i
  = Some (default None (r !! field_name f ≫= convert eng (field_type f))).
Proof.
  intros Hok Hf. unfold permissive_row.
  rewrite <- has_bad_token_asNullable in Hok.
  destruct (has_bad_token_false _ _ _ Hok) as [cells Hc]. rewrite Hc.
  assert (Hf' : asNullable schema !! i
                = Some (Field (field_name f) (field_type f) true)).
  { unfold asNullable. by rewrite list_lookup_fmap, Hf. }
  destruct (convert_record_lookup _ _ _ _ _ _ Hc Hf') as (c & Hi & Hcf).
  simpl. rewrite Hi. f_equal.
  unfold convert_field in Hcf. simpl in Hcf.
  destruct (r !! field_name f) as [j|]; simpl; [|congruence].
  by rewrite Hcf.
Qed.

Ltac case_convert :=
  repeat (cbn in *;
          match goal with
          | |- context [match ?x with _ => _ end] => is_var x; destruct x
          | H : context [match ?x with _ => _ end] |- _ => is_var x; destruct x
          end);
  cbn in *.

(** Any token converts to a string column: NULL to NULL, the others to
    their text. *)
Lemma convert_StringType (eng : Engine) (j : json) :
  convert eng StringType j = Some (VString <$> string_of_token eng j).
Proof. destruct j; try reflexivity. unfold convert. case_convert; reflexivity. Qed.

Lemma as_string_convert (eng : Engine) (o : option json) :
  as_string (default None (o ≫= convert eng StringType)) = o ≫= string_of_token eng.
Proof.
  destruct o as [j|]; [|reflexivity]. cbn. rewrite convert_StringType.
  by destruct (string_of_token eng j).
Qed.

Lemma as_long_convert (eng : Engine) (o : option json) :
  (∀ j, o = Some j → convert eng LongType j ≠ None) →
  as_long (default None (o ≫= convert eng LongType)) = o ≫= long_of_token.
Proof.
  destruct o as [j|]; [|reflexivity]. intros Hj. specialize (Hj j eq_refl).
  destruct j as [|s|z|d|b]; try done.
  - unfold convert in *. case_convert; done.
  - cbn in *. by case_bool_decide.
Qed.

Lemma has_bad_token_elem (eng : Engine) (schema : StructType) (r : record)
    (f : StructField) (j : json) :
  has_bad_token eng schema r = false → f ∈ schema → r !! field_name f = Some j →
  convert eng (field_type f) j ≠ None.
Proof.
  unfold has_bad_token. intros Hok Hf Hj.
  induction schema as [|g schema IH]; [by apply elem_of_nil in Hf|].
  cbn [existsb] in Hok. apply orb_false_elim in Hok as [Hg Hs].
  apply elem_of_cons in Hf as [->|Hf]; [|by apply IH].
  rewrite Hj in Hg. by apply bool_decide_eq_false in Hg.
Qed.

(** X10. A record without a token that fails to convert is read value for
    value: the key columns of a song and the columns of a log event the
    pipeline works on hold the text of the record's tokens, [ts] the
    integer, and NULL where the record has no such field or has null. *)
Theorem X10_readers_keep_the_values (eng : Engine) (r : record) :
  (has_bad_token eng song_schema r = false →
   ∃ s, create_song_df eng [r] = Ok [s] ∧
        Song.song_id s = r !! "song_id" ≫= string_of_token eng ∧
        Song.title s = r !! "title" ≫= string_of_token eng ∧
        Song.artist_id s = r !! "artist_id" ≫= string_of_token eng ∧
        Song.artist_name s = r !! "artist_name" ≫= string_of_token eng) ∧
  (has_bad_token eng log_schema r = false →
   ∃ e, create_log_df eng [r] = Ok [e] ∧
        Log.page e = r !! "page" ≫= string_of_token eng ∧
        Log.song e = r !! "song" ≫= string_of_token eng ∧
        Log.artist e = r !! "artist" ≫= string_of_token eng ∧
        Log.userId e = r !! "userId" ≫= string_of_token eng ∧
        Log.level e = r !! "level" ≫= string_of_token eng ∧
        Log.ts e = r !! "ts" ≫= long_of_token).
Proof.
  split; intros Hok.
  - exists (song_of_row (permissive_row eng song_schema r)).
    split; [unfold create_song_df; by rewrite read_json_default|].
    pose proof (λ i f, permissive_row_lookup eng song_schema r i f Hok) as Hc.
    generalize dependent (permissive_row eng song_schema r). intros cells Hc.
    unfold song_of_row. cbn [Song.song_id Song.title Song.artist_id Song.artist_name].
    repeat split.
    + change (column song_schema cells "song_id") with (default None (cells !! 5%nat)).
      rewrite (Hc 5%nat _ eq_refl). apply as_string_convert.
    + change (column song_schema cells "title") with (default None (cells !! 6%nat)).
      rewrite (Hc 6%nat _ eq_refl). apply as_string_convert.
    + change (column song_schema cells "artist_id") with (default None (cells !! 0%nat)).
      rewrite (Hc 0%nat _ eq_refl). apply as_string_convert.
    + change (column song_schema cells "artist_name") with (default None (cells !! 4%nat)).
      rewrite (Hc 4%nat _ eq_refl). apply as_string_convert.
  - exists (log_of_row (permissive_row eng log_schema r)).
    split; [unfold create_log_df; by rewrite read_json_default|].
    pose proof (λ i f, permissive_row_lookup eng log_schema r i f Hok) as Hc.
    pose proof (λ f j, has_bad_token_elem eng log_schema r f j Hok) as Hj.
    generalize dependent (permissive_row eng log_schema r). intros cells Hc.
    unfold log_of_row.
    cbn [Log.page Log.song Log.artist Log.userId Log.level Log.ts].
    repeat split.
    + change (column log_schema cells "page") with (default None (cells !! 10%nat)).
      rewrite (Hc 10%nat _ eq_refl). apply as_string_convert.
    + change (column log_schema cells "song") with (default None (cells !! 13%nat)).
      rewrite (Hc 13%nat _ eq_refl). apply as_string_convert.
    + change (column log_schema cells "artist") with (default None (cells !! 0%nat)).
      rewrite (Hc 0%nat _ eq_refl). apply as_string_convert.
    + change (column log_schema cells "userId") with (default None (cells !! 17%nat)).
      rewrite (Hc 17%nat _ eq_refl). apply as_string_convert.
    + change (column log_schema cells "level") with (default None (cells !! 7%nat)).
      rewrite (Hc 7%nat _ eq_refl). apply as_string_convert.
    + change (column log_schema cells "ts") with (default None (cells !! 15%nat)).
      rewrite (Hc 15%nat _ eq_refl). apply as_long_convert.
      intros j Hts. apply (Hj (Field "ts" LongType false) j); [|done].
      apply list_elem_of_lookup. by exists 15%nat.
Qed.

Lemma X10_readers_keep_the_values_witness :
  has_bad_token utc_engine log_schema play_U1 = false ∧
  ∃ e, create_log_df utc_engine [play_U1] = Ok [e] ∧
       Log.page e = play_U1 !! "page" ≫= string_of_token utc_engine ∧
       Log.song e = play_U1 !! "song" ≫= string_of_token utc_engine ∧
       Log.artist e = play_U1 !! "artist" ≫= string_of_token utc_engine ∧
       Log.userId e = play_U1 !! "userId" ≫= string_of_token utc_engine ∧
       Log.level e = play_U1 !! "level" ≫= string_of_token utc_engine ∧
       Log.ts e = play_U1 !! "ts" ≫= long_of_token.
Proof.
  split; [reflexivity|].
  apply (X10_readers_keep_the_values utc_engine play_U1). reflexivity.
Defined.

(** ** A log without plays *)

(** X11. When no log event has the page NextSong, the log run still
    succeeds and writes [users], [time] and [songplays] as empty tables,
    replacing what their destinations held. *)
Theorem X11_log_without_plays (eng : Engine) (song_df : list Song.t)
    (log_df : list Log.t) (P : string) (store : gmap string (list Files)) :
  (∀ e, e ∈ log_df → Log.page e ≠ Some "NextSong") →
  process_log_data eng song_df log_df P store
  = Ok (<[songplays_out_path P :=
            [{| partitionBy := ["year"; "month"]; content := SongplaysT [] |}]]>
        (<[time_out_path P :=
            [{| partitionBy := ["year"; "month"]; content := TimeT [] |}]]>
         (<[users_out_path P :=
            [{| partitionBy := []; content := UsersT [] |}]]> store))).
Proof.
  intros Hnone.
  assert (Hf : df_filter is_next_song log_df = []).
  { unfold df_filter. apply filter_none. intros e He Hp.
    apply is_next_song_true in Hp. by apply (Hnone e). }
  apply process_log_data_Ok. exists [], [].
  unfold time_table, songplays, joined, users_table. by rewrite Hf.
Qed.

Lemma X11_log_without_plays_witness :
  process_log_data utc_engine [row_S1] [row_U1 "Home"] "out/"
    {[ "out/users/users.parquet" := [{| partitionBy := []; content := UsersT [] |};
                                     {| partitionBy := []; content := UsersT [] |}] ]}
  = Ok (<[songplays_out_path "out/" :=
            [{| partitionBy := ["year"; "month"]; content := SongplaysT [] |}]]>
        (<[time_out_path "out/" :=
            [{| partitionBy := ["year"; "month"]; content := TimeT [] |}]]>
         (<[users_out_path "out/" :=
            [{| partitionBy := []; content := UsersT [] |}]]>
          {[ "out/users/users.parquet" :=
               [{| partitionBy := []; content := UsersT [] |};
                {| partitionBy := []; content := UsersT [] |}] ]}))).
Proof.
  apply (X11_log_without_plays utc_engine [row_S1] [row_U1 "Home"] "out/").
  intros e He. apply list_elem_of_singleton in He. by subst e.
Defined.

(** ** Inputs without duplicates *)

Lemma filter_all {A} (P : A → Prop) `{∀ x, Decision (P x)} (l : list A) :
  (∀ x, x ∈ l → P x) → filter P l = l.
Proof.
  induction l as [|x l IH]; [done|]. intros Hl. rewrite filter_cons.
  case_decide as HP; [|by destruct HP; apply Hl; left].
  f_equal. apply IH. intros y Hy. apply Hl. by right.
Qed.

Lemma dropDuplicates_NoDup_id `{EqDecision K} {A} (key : A → K) (df : list A) :
  NoDup (key <$> df) → dropDuplicates key df = df.
Proof.
  induction df as [|x df IH]; [done|]. rewrite fmap_cons, NoDup_cons.
  intros [Hx Hdf]. simpl. rewrite IH by done. f_equal.
  apply filter_all. intros y Hy Heq. apply Hx. rewrite <- Heq.
  by apply list_elem_of_fmap_2.
Qed.



(** ** The destinations of a run *)

Lemma prefix_append (a b : string) : String.prefix a (a +:+ b) = true.
Proof.
  induction a as [|x a IH]; [by destruct b|].
  change (String.prefix (String x a) (String x (a +:+ b)) = true).
  simpl. by destruct (Ascii.ascii_dec x x).
Qed.

(** X13. Whatever the output path, the five destinations of a run start
    with it and are pairwise distinct, so that no table of a run is written
    over another one. *)
Theorem X13_destinations_are_distinct (P : string) :
  NoDup (destinations P) ∧
  Forall (λ p, String.prefix P p = true) (destinations P) ∧
  length (destinations P) = 5%nat.
Proof.
  split; [apply destinations_NoDup|]. split; [|done].
  unfold destinations, songs_out_path, artists_out_path, users_out_path,
    time_out_path, songplays_out_path.
  rewrite !append_assoc. repeat constructor; apply prefix_append.
Qed.
